(** * btheadset: connect a Bluetooth headset and make it the default sink

    A shallow embedding of [btheadset/btheadset.py] and the properties
    of its address validator, of its two text scanners (substring test
    and regular-expression lookup) and of the orchestration sequence
    over the two external controllers [bluetoothctl] and [pacmd].

    Conventions of the model.
    - A Python [str] is a [string]; a character of the model is a code
      point below 256, which covers the ASCII output of the two
      controllers. The character classes are those of [re] on these
      code points; the case mappings are those of the ASCII letters,
      which is all that the program applies them to.
    - [datetime] values are microseconds ([Z]), the resolution of
      [datetime.now()]; [connect_timeout] is the [int] of seconds that
      argparse produces. The elapsed time is compared as the program
      compares it: as the double that [total_seconds()] returns.
    - [subprocess.run] is answered by an environment; every call is
      recorded in the state, also when the call raises. The [stdout] of
      a completed process is its output as [decode("utf-8")] returns
      it; a run whose output is not UTF-8 ends in [UnicodeDecodeError]
      at that step and is not among the runs of the model.
    - [logging] calls only write to the log stream and are left out. *)

From Stdlib Require Import String Ascii List ZArith NArith Bool Lia Arith.
From Stdlib Require Import DecimalString.
Import ListNotations.

Local Open Scope list_scope.
Local Open Scope string_scope.

(** ** Characters *)

Module Chr.

Definition code (c : ascii) : N := N_of_ascii c.

Definition between (lo hi : ascii) (c : ascii) : bool :=
  (code lo <=? code c)%N && (code c <=? code hi)%N.

Definition same (a : ascii) (c : ascii) : bool := Ascii.eqb c a.

Definition newline : ascii := "010"%char.
Definition dquote : ascii := "034"%char.

Definition is_lower (c : ascii) : bool := between "a" "z" c.
Definition is_upper (c : ascii) : bool := between "A" "Z" c.

(** [str.upper] and [str.lower] on one character, for ASCII letters. *)
Definition py_upper (c : ascii) : ascii :=
  if is_lower c then ascii_of_N (code c - 32) else c.

Definition py_lower (c : ascii) : ascii :=
  if is_upper c then ascii_of_N (code c + 32) else c.

(** The class [[0-9a-f]] as written in the pattern (no flag). *)
Definition hex_lower (c : ascii) : bool :=
  between "0" "9" c || between "a" "f" c.

(** The upper-case hexadecimal digits, the [X] of [XX:XX:XX:XX:XX:XX]. *)
Definition hex_upper (c : ascii) : bool :=
  between "0" "9" c || between "A" "F" c.

(** [\d]: the decimal digits; there is none from 128 to 255. *)
Definition digit (c : ascii) : bool := between "0" "9" c.

(** [\s]: tab, newline, vertical tab, form feed, carriage return, the
    four separators 28 to 31, the space, and of the code points above
    127 the next-line control 133 and the no-break space 160. *)
Definition space (c : ascii) : bool :=
  between "009" "013" c || between "028" "031" c || same " " c ||
  same "133" c || same "160" c.

(** [.] without [re.DOTALL]: anything but a newline. *)
Definition dot (c : ascii) : bool := negb (same newline c).

(** A character class under [re.IGNORECASE]: the character matches when
    its lower-case or its upper-case form is in the class. *)
Definition ignorecase (p : ascii -> bool) (c : ascii) : bool :=
  p (py_lower c) || p (py_upper c).

End Chr.

(** ** Strings *)

Definition nl : string := String Chr.newline EmptyString.
Definition dq : string := String Chr.dquote EmptyString.

Fixpoint smap (f : ascii -> ascii) (s : string) : string :=
  match s with
  | EmptyString => EmptyString
  | String c s' => String (f c) (smap f s')
  end.

Fixpoint sall (p : ascii -> bool) (s : string) : bool :=
  match s with
  | EmptyString => true
  | String c s' => p c && sall p s'
  end.

(** [s.upper()] *)
Definition upper (s : string) : string := smap Chr.py_upper s.

(** [s.replace(a, b)] for one-character [a] and [b]. *)
Definition replace (a b : ascii) (s : string) : string :=
  smap (fun c => if Chr.same a c then b else c) s.

(** What is left of [s] after its prefix [w], if [w] is one. *)
Fixpoint strip (w s : string) : option string :=
  match w, s with
  | EmptyString, _ => Some s
  | String a w', String c s' => if Chr.same a c then strip w' s' else None
  | String _ _, EmptyString => None
  end.

(** [needle in hay] on [str]: the needle starts at some position. *)
Fixpoint str_in (needle hay : string) : bool :=
  match strip needle hay with
  | Some _ => true
  | None =>
      match hay with
      | EmptyString => false
      | String _ hay' => str_in needle hay'
      end
  end.

(** [sep.join(pieces)] *)
Fixpoint join (sep : ascii) (pieces : list string) : string :=
  match pieces with
  | [] => EmptyString
  | [g] => g
  | g :: gs => g ++ String sep (join sep gs)
  end.

(** [s.split(sep)] for a one-character separator: the pieces between
    the separators, of which there is always at least one. *)
Fixpoint split (sep : ascii) (s : string) : list string :=
  match s with
  | EmptyString => [EmptyString]
  | String c s' =>
      if Chr.same sep c then EmptyString :: split sep s'
      else match split sep s' with
           | [] => [String c EmptyString]
           | g :: gs => String c g :: gs
           end
  end.

(** ** Regular expressions

    The fragment of Python's [re] that the program's three patterns are
    written in: one-character classes, concatenation, greedy [*] and
    [+] over a class, named groups, and the anchors [^] and [$] without
    [re.MULTILINE]. Matching is by backtracking in Python's order: a
    greedy repetition tries the longest run first and gives characters
    back one by one. *)

Module Re.

Inductive regex : Type :=
| Empty
| Char (p : ascii -> bool)
| Cat (r1 r2 : regex)
| Star (p : ascii -> bool)
| Plus (p : ascii -> bool)
| Group (name : string) (r : regex)
| Bol
| Eol.

(** A literal string and a bounded repetition [{n}], unfolded. *)
Fixpoint lit (s : string) : regex :=
  match s with
  | EmptyString => Empty
  | String c s' => Cat (Char (Chr.same c)) (lit s')
  end.

Fixpoint times (n : nat) (r : regex) : regex :=
  match n with
  | O => Empty
  | S n' => Cat r (times n' r)
  end.

(** A match object: the span of the match and its named groups. *)
Record Match : Type := mkMatch {
  m_start : nat;
  m_end : nat;
  groups : list (string * string)
}.

Definition group (m : Match) (name : string) : option string :=
  option_map snd
    (find (fun g => String.eqb (fst g) name) (groups m)).

Section Exec.
Context {R : Type}.

Definition cont : Type := nat -> string -> list (string * string) -> option R.

(** Greedy run of a class: the longest run first, then shorter ones. *)
Fixpoint star (p : ascii -> bool) (k : nat -> string -> option R)
    (pos : nat) (s : string) : option R :=
  match s with
  | String c s' =>
      if p c then
        match star p k (S pos) s' with
        | Some r => Some r
        | None => k pos s
        end
      else k pos s
  | EmptyString => k pos s
  end.

(** [$] without MULTILINE: at the end of the text, or just before a
    newline that ends the text. *)
Definition at_eol (s : string) : bool :=
  match s with
  | EmptyString => true
  | String c EmptyString => Chr.same Chr.newline c
  | _ => false
  end.

Fixpoint exec (r : regex) (pos : nat) (s : string)
    (gs : list (string * string)) (k : cont) : option R :=
  match r with
  | Empty => k pos s gs
  | Char p =>
      match s with
      | String c s' => if p c then k (S pos) s' gs else None
      | EmptyString => None
      end
  | Cat r1 r2 =>
      exec r1 pos s gs (fun pos' s' gs' => exec r2 pos' s' gs' k)
  | Star p => star p (fun pos' s' => k pos' s' gs) pos s
  | Plus p =>
      match s with
      | String c s' =>
          if p c then star p (fun pos' s' => k pos' s' gs) (S pos) s'
          else None
      | EmptyString => None
      end
  | Group name r' =>
      exec r' pos s gs
        (fun pos' s' gs' =>
           k pos' s' ((name, substring 0 (pos' - pos) s) :: gs'))
  | Bol => if Nat.eqb pos 0 then k pos s gs else None
  | Eol => if at_eol s then k pos s gs else None
  end.
End Exec.

Definition match_at (r : regex) (pos : nat) (s : string) : option Match :=
  exec r pos s [] (fun pos' _ gs => Some (mkMatch pos pos' gs)).

(** [re.match(r, text)]: a match that starts at position 0. *)
Definition match_ (r : regex) (text : string) : option Match :=
  match_at r 0 text.

(** [re.search(r, text)]: the match at the leftmost position that has
    one, every position up to the end of the text included. *)
Fixpoint search_from (r : regex) (pos : nat) (s : string) : option Match :=
  match match_at r pos s with
  | Some m => Some m
  | None =>
      match s with
      | EmptyString => None
      | String _ s' => search_from r (S pos) s'
      end
  end.

Definition search (r : regex) (text : string) : option Match :=
  search_from r 0 text.

(** The characters with a meaning of their own in a pattern. *)
Definition special (c : ascii) : bool :=
  existsb (fun m => Chr.same m c)
    (list_ascii_of_string "\.^$*+?{}[]()|").

(** A text interpolated into a pattern by an f-string is read as
    pattern syntax, not as a literal: a [.] in it stands for any
    character but a newline, and a character that is not special stands
    for itself. A text with another special character builds a pattern
    outside the fragment above: [None]. *)
Fixpoint interpolated (s : string) : option regex :=
  match s with
  | EmptyString => Some Empty
  | String c s' =>
      if Chr.same "." c then option_map (Cat (Char Chr.dot)) (interpolated s')
      else if special c then None
      else option_map (Cat (Char (Chr.same c))) (interpolated s')
  end.

End Re.

(** ** Exceptions and outcomes *)

Inductive exn : Type :=
| ArgumentTypeError (msg : string)
| BTHeadsetError (msg : string)
| CalledProcessError (returncode : Z) (cmd : list string).

(** What stops a run of the model without a result of the program. *)
Inductive limit : Type :=
| Fuel      (* the loop was cut off by the model's bound *)
| Pattern.  (* a pattern outside the modelled fragment of [re] *)

Inductive outcome (A : Type) : Type :=
| Ok (a : A)
| Raise (e : exn)
| Beyond (l : limit).
Arguments Ok {A} a.
Arguments Raise {A} e.
Arguments Beyond {A} l.

(** ** BluetoothAddress *)

Inductive pyval : Type :=
| PyStr (s : string)
| PyInt (z : Z).

(** [str(value)]; for an integer the decimal numeral, which every
    interpreter gives for integers of up to 4300 digits (from Python
    3.11 on, longer ones raise [ValueError] unless the limit is
    lifted). *)
Definition py_str (v : pyval) : string :=
  match v with
  | PyStr s => s
  | PyInt z => NilZero.string_of_int (Z.to_int z)
  end.

Module BluetoothAddress.

(** [re.compile("^([0-9a-f]{2}:){5}([0-9a-f]{2})$", re.IGNORECASE)];
    the two groups are never read and are kept as plain grouping. *)
Definition RE_BT_ADDRESS : Re.regex :=
  let h := Re.Char (Chr.ignorecase Chr.hex_lower) in
  Re.Cat Re.Bol
    (Re.Cat (Re.times 5 (Re.Cat (Re.times 2 h) (Re.lit ":")))
       (Re.Cat (Re.times 2 h) Re.Eol)).

Definition invalid (value : string) : exn :=
  ArgumentTypeError (dq ++ value ++ dq ++ " is not a valid Bluetooth Address").

Definition __call__ (value : pyval) : outcome string :=
  let value := py_str value in
  match Re.match_ RE_BT_ADDRESS value with
  | None => Raise (invalid value)
  | Some _ => Ok (upper value)
  end.

End BluetoothAddress.

(** ** The outside world

    [subprocess.run] and [datetime.now()] are the two ways the program
    reaches outside. An environment fixes what the outside answers: the
    [k]-th reading of the clock and the completed process of the [k]-th
    call. The state counts the clock readings and keeps the calls made,
    newest first. *)

Record Cmd : Type := mkCmd {
  args : list string;
  input : option string
}.

Record CompletedProcess : Type := mkCompleted {
  returncode : Z;
  stdout : string
}.

Record Env : Type := mkEnv {
  clock : nat -> Z;
  answer : nat -> CompletedProcess
}.

Record State : Type := mkState {
  reads : nat;
  calls : list Cmd
}.

Definition initial : State := mkState 0 [].

Definition M (A : Type) : Type := Env -> State -> outcome A * State.

Definition ret {A} (a : A) : M A := fun _ st => (Ok a, st).

Definition raise {A} (e : exn) : M A := fun _ st => (Raise e, st).

Definition beyond {A} (l : limit) : M A := fun _ st => (Beyond l, st).

Definition bind {A B} (m : M A) (f : A -> M B) : M B :=
  fun env st =>
    match m env st with
    | (Ok a, st') => f a env st'
    | (Raise e, st') => (Raise e, st')
    | (Beyond l, st') => (Beyond l, st')
    end.

Notation "x <- m ;; f" := (bind m (fun x => f))
  (at level 61, m at next level, right associativity).
Notation "m ;; f" := (bind m (fun _ => f))
  (at level 61, right associativity).

(** [datetime.now()] *)
Definition datetime_now : M Z :=
  fun env st => (Ok (clock env (reads st)), mkState (S (reads st)) (calls st)).

(** [subprocess.run(args, input=..., check=True, ...)]: the call is made,
    and a non-zero return code raises [CalledProcessError]. *)
Definition subprocess_run (c : Cmd) : M CompletedProcess :=
  fun env st =>
    let p := answer env (length (calls st)) in
    let st' := mkState (reads st) (c :: calls st) in
    if (returncode p =? 0)%Z then (Ok p, st')
    else (Raise (CalledProcessError (returncode p) (args c)), st').

(** ** The steps *)

Definition bluetoothctl (request : string) : Cmd :=
  mkCmd ["/usr/bin/env"; "bluetoothctl"] (Some request).

Definition pacmd (arguments : list string) : Cmd :=
  mkCmd ("/usr/bin/env" :: "pacmd" :: arguments) None.

Definition not_available (bluetooth_address : string) : exn :=
  BTHeadsetError
    ("Bluetooth headset " ++ dq ++ bluetooth_address ++ dq ++ " is not available").

Definition connect_device (bluetooth_address : string) : M unit :=
  p <- subprocess_run (bluetoothctl ("connect " ++ bluetooth_address)) ;;
  if str_in ("Device " ++ bluetooth_address ++ " not available") (stdout p)
  then raise (not_available bluetooth_address)
  else ret tt.

Definition timed_out (bluetooth_address : string) : exn :=
  BTHeadsetError
    ("Timeout connecting to Bluetoot headset " ++ dq ++ bluetooth_address ++ dq).

(** ** Floating point

    [timedelta.total_seconds()] divides an [int] of microseconds by
    [10**6]; Python's true division of two ints gives the double that
    is nearest to the quotient, ties going to the even mantissa. A
    double is kept as its mantissa and exponent, [(m, e)] for
    [m * 2^e] with [|m| <= 2^53]. The exponent is not bounded: a
    [timedelta] stays far from the overflow and underflow of a double. *)

Module Float.

Local Open Scope Z_scope.

(** The integer nearest to [n / d], for [0 < d], ties to even. *)
Definition round_half_even (n d : Z) : Z :=
  let q := n / d in
  let r := n mod d in
  if 2 * r <? d then q
  else if d <? 2 * r then q + 1
  else if Z.even q then q else q + 1.

(** [d * 2^l <= a], also for a negative [l]. *)
Definition scaled_le (d l a : Z) : bool :=
  if 0 <=? l then d * 2 ^ l <=? a else d <=? a * 2 ^ (- l).

(** The exponent [f] of a quotient [a / d] of positive ints:
    [2^f <= a / d < 2^(f+1)]. *)
Definition exponent (a d : Z) : Z :=
  let l := Z.log2 a - Z.log2 d in
  if scaled_le d l a then l else l - 1.

(** [n / d] on ints, for [0 < d], with a mantissa of 53 bits. *)
Definition truediv (n d : Z) : Z * Z :=
  if n =? 0 then (0, 0)
  else
    let a := Z.abs n in
    let e := exponent a d - 52 in
    let m := if 0 <=? e then round_half_even a (d * 2 ^ e)
             else round_half_even (a * 2 ^ (- e)) d in
    (Z.sgn n * m, e).

(** [x < t] for a double [x] and an int [t], which Python compares
    exactly, without turning [t] into a double. *)
Definition lt_int (x : Z * Z) (t : Z) : bool :=
  let (m, e) := x in
  if 0 <=? e then m * 2 ^ e <? t else m <? t * 2 ^ (- e).

End Float.

(** [delta.total_seconds()] for a difference of [delta] microseconds. *)
Definition total_seconds (delta : Z) : Z * Z := Float.truediv delta 1000000.

(** [(datetime.now() - start).total_seconds() < connect_timeout] *)
Definition within (start now connect_timeout : Z) : bool :=
  Float.lt_int (total_seconds (now - start)) connect_timeout.

(** The [while] loop of [wait_until_connected]; [fuel] bounds the number
    of times its condition is evaluated. *)
Fixpoint wait_loop (fuel : nat) (bluetooth_address : string)
    (connect_timeout start : Z) : M unit :=
  match fuel with
  | O => beyond Fuel
  | S fuel' =>
      now <- datetime_now ;;
      if within start now connect_timeout then
        p <- subprocess_run (bluetoothctl ("info " ++ bluetooth_address)) ;;
        if str_in "Connected: yes" (stdout p) then ret tt
        else wait_loop fuel' bluetooth_address connect_timeout start
      else raise (timed_out bluetooth_address)
  end.

Definition wait_until_connected (fuel : nat) (bluetooth_address : string)
    (connect_timeout : Z) : M unit :=
  start <- datetime_now ;;
  wait_loop fuel bluetooth_address connect_timeout start.

(** [fr"index: (?P<name>\d+)\s*name: <{entity}>"] *)
Definition index_regex (group_name : string) (entity : Re.regex) : Re.regex :=
  Re.Cat (Re.lit "index: ")
    (Re.Cat (Re.Group group_name (Re.Plus Chr.digit))
       (Re.Cat (Re.Star Chr.space)
          (Re.Cat (Re.lit "name: <") (Re.Cat entity (Re.lit ">"))))).

Definition index_pattern (group_name entity : string) : option Re.regex :=
  option_map (index_regex group_name) (Re.interpolated entity).

(** [re.search(pattern, text, re.MULTILINE)] followed by [m.group(name)];
    the patterns have no anchor, so the flag changes nothing. *)
Definition lookup (group_name entity text : string) (missing : exn) : M string :=
  match index_pattern group_name entity with
  | None => beyond Pattern
  | Some r =>
      match Re.search r text with
      | None => raise missing
      | Some m =>
          match Re.group m group_name with
          | Some i => ret i
          | None => beyond Pattern
          end
      end
  end.

Definition card_name_of (bluetooth_address : string) : string :=
  "bluez_card." ++ replace ":" "_" bluetooth_address.

Definition no_card (card_name : string) : exn :=
  BTHeadsetError ("Unable to find card index of " ++ dq ++ card_name ++ dq).

Definition get_card_index (bluetooth_address : string) : M string :=
  let card_name := card_name_of bluetooth_address in
  p <- subprocess_run (pacmd ["list-cards"]) ;;
  lookup "card_index" card_name (stdout p) (no_card card_name).

Definition set_card_profile (card_index profile : string) : M unit :=
  subprocess_run (pacmd ["set-card-profile"; card_index; "off"]) ;;
  subprocess_run (pacmd ["set-card-profile"; card_index; profile]) ;;
  ret tt.

Definition sink_name_of (bluetooth_address profile : string) : string :=
  "bluez_sink." ++ replace ":" "_" bluetooth_address ++ "." ++ profile.

Definition no_sink (sink_name : string) : exn :=
  BTHeadsetError ("Unable to find sink index of " ++ dq ++ sink_name ++ dq).

Definition get_sink_index (bluetooth_address profile : string) : M string :=
  let sink_name := sink_name_of bluetooth_address profile in
  p <- subprocess_run (pacmd ["list-sinks"]) ;;
  lookup "sink_index" sink_name (stdout p) (no_sink sink_name).

Definition set_default_sink (sink_index : string) : M unit :=
  subprocess_run (pacmd ["set-default-sink"; sink_index]) ;;
  ret tt.

(** ** main *)

(** The namespace that [__parse_args] returns. *)
Record Namespace : Type := mkArgs {
  bluetooth_address : string;
  connect_timeout : Z;
  card_profile : string;
  verbose : bool
}.

(** [main] from the parsed arguments on. *)
Definition main (fuel : nat) (a : Namespace) : M unit :=
  connect_device (bluetooth_address a) ;;
  wait_until_connected fuel (bluetooth_address a) (connect_timeout a) ;;
  card_index <- get_card_index (bluetooth_address a) ;;
  set_card_profile card_index (card_profile a) ;;
  sink_index <- get_sink_index (bluetooth_address a) (card_profile a) ;;
  set_default_sink sink_index.

(** The exit status of the interpreter: 0 when [main] returns, 1 when an
    exception leaves it. A run that the model cuts off has none. *)
Definition exit_status {A} (o : outcome A) : option Z :=
  match o with
  | Ok _ => Some 0%Z
  | Raise _ => Some 1%Z
  | Beyond _ => None
  end.

(** ** The words of the specification

    The shape of an address, following the data model: six groups,
    separated by colons, each of two hexadecimal digits. *)

Definition hex_digit (c : ascii) : bool :=
  Chr.digit c || Chr.between "a" "f" c || Chr.between "A" "F" c.

Definition byte_pair (p : ascii -> bool) (g : string) : bool :=
  match g with
  | String a (String b EmptyString) => p a && p b
  | _ => false
  end.

Definition six_pairs (p : ascii -> bool) (s : string) : bool :=
  let gs := split ":" s in
  Nat.eqb (length gs) 6 && forallb (byte_pair p) gs.

(** Six colon-separated hex byte pairs, in either case. *)
Definition six_hex_pairs (s : string) : bool := six_pairs hex_digit s.

(** The canonical form [XX:XX:XX:XX:XX:XX], upper-case hex digits only. *)
Definition canonical (s : string) : bool := six_pairs Chr.hex_upper s.

(** Six pairs written out: the text of a list of pairs of digits. *)
Definition render (ps : list (ascii * ascii)) : string :=
  join ":" (map (fun ab => String (fst ab) (String (snd ab) "")) ps).

Definition both (p : ascii -> bool) (ab : ascii * ascii) : bool :=
  p (fst ab) && p (snd ab).

(** The characters of [str] of an integer: decimal digits and a sign. *)
Definition numeral_char (c : ascii) : bool := Chr.digit c || Chr.same "-" c.

(** The calls of a run that went to the audio controller. *)
Definition audio_call (c : Cmd) : bool :=
  existsb (String.eqb "pacmd") (args c).

Definition audio_calls (st : State) : list Cmd :=
  filter audio_call (calls st).

(** The request of one poll, and the state after [k] turns of the loop
    that each read the clock and polled once. *)
Definition info (bluetooth_address : string) : Cmd :=
  bluetoothctl ("info " ++ bluetooth_address).

Definition after_polls (k : nat) (bluetooth_address : string) (st : State) : State :=
  mkState (reads st + k) (repeat (info bluetooth_address) k ++ calls st)%list.

Definition connected (p : CompletedProcess) : bool :=
  str_in "Connected: yes" (stdout p).

(** An environment in which every call exits with 0 and the same output. *)
Definition const_env (out : string) : Env :=
  mkEnv (fun k => Z.of_nat k) (fun _ => mkCompleted 0 out).

(** A name as the dump may show it where the pattern has the name
    interpolated: the same text, but for any character other than a
    newline where the interpolated name has a [.]. *)
Fixpoint like (pat nm : string) : bool :=
  match pat, nm with
  | EmptyString, EmptyString => true
  | String a pat', String c nm' =>
      (if Chr.same "." a then Chr.dot c else Chr.same a c) && like pat' nm'
  | _, _ => false
  end.

(** What is left of [s] after a prefix that is [like] the name. *)
Fixpoint strip_like (pat s : string) : option string :=
  match pat, s with
  | EmptyString, _ => Some s
  | String a pat', String c s' =>
      if (if Chr.same "." a then Chr.dot c else Chr.same a c)
      then strip_like pat' s' else None
  | String _ _, EmptyString => None
  end.

(** The texts whose interpolation stays in the modelled fragment. *)
Definition plain (s : string) : bool :=
  sall (fun c => Chr.same "." c || negb (Re.special c)) s.

(** An entry of a dump as the lookup reads it: after [pre], an index
    line with the digits [index], nothing but white space, then a name
    line with a name [like] the entity's, and [post] after it. *)
Definition listed (entity text index pre post : string) : Prop :=
  exists ws nm,
    text = pre ++ "index: " ++ index ++ ws ++ "name: <" ++ nm ++ ">" ++ post /\
    index <> "" /\ sall Chr.digit index = true /\
    sall Chr.space ws = true /\ like entity nm = true.

(** The head of a text is not in a class (or the text is empty). *)
Definition stops (p : ascii -> bool) (s : string) : bool :=
  match s with
  | EmptyString => true
  | String c _ => negb (p c)
  end.

(** A stretch of intervening lines: one line or more, each ended by a
    newline and each with something on it that is not white space. *)
Definition has_content (line : string) : bool := negb (sall Chr.space line).

Definition intervening (mid : string) : bool :=
  match rev (split Chr.newline mid) with
  | last :: (_ :: _) as lines =>
      String.eqb last "" && forallb has_content lines
  | _ => false
  end.

(** The reading of the dump format that lets other lines stand between
    the index line and the name line of an entry. *)
Definition tolerates_intervening_lines : Prop :=
  forall env st address n mid,
    let p := answer env (length (calls st)) in
    returncode p = 0%Z ->
    n <> "" -> sall Chr.digit n = true -> intervening mid = true ->
    stdout p =
      "index: " ++ n ++ nl ++ mid ++ "name: <" ++ card_name_of address ++ ">" ->
    fst (get_card_index address env st) = Ok n.

(** What the [j]-th turn of the loop sees from state [st]: the clock
    at the top of the turn, then the poll. *)
Definition turn_check (env : Env) (start timeout : Z) (st : State) (j : nat) : bool :=
  within start (clock env (reads st + j)) timeout.

Definition turn_poll (env : Env) (st : State) (j : nat) : CompletedProcess :=
  answer env (length (calls st) + j).

(** [s] without the one newline that ends it, if one does. *)
Fixpoint chomp (s : string) : option string :=
  match s with
  | EmptyString => None
  | String c EmptyString =>
      if Chr.same Chr.newline c then Some EmptyString else None
  | String c s' => option_map (String c) (chomp s')
  end.

(** The texts that the validator lets through: six pairs of hex digits,
    alone or followed by one newline. *)
Definition accepted (s : string) : bool :=
  six_hex_pairs s ||
  match chomp s with
  | Some s0 => six_hex_pairs s0
  | None => false
  end.

(** ** Spot checks *)

Example addr_ok :
  BluetoothAddress.__call__ (PyStr "aa:bb:cc:DD:EE:FF") = Ok "AA:BB:CC:DD:EE:FF".
Proof. reflexivity. Qed.

Example addr_int : BluetoothAddress.__call__ (PyInt 0) = Raise (BluetoothAddress.invalid "0").
Proof. reflexivity. Qed.

(** The rounding of [total_seconds()] shows from a timeout of
    [2^34 + 1] seconds on: one microsecond before the deadline the
    double is the deadline. *)
Example within_small :
  within 0 (5 * 1000000 - 1) 5 = true /\ within 0 (5 * 1000000) 5 = false.
Proof. split; reflexivity. Qed.

Example within_rounded :
  within 0 (17179869185 * 1000000 - 1) 17179869185 = false.
Proof. reflexivity. Qed.

Example addr_short : BluetoothAddress.__call__ (PyStr "00:11:22") = Raise (BluetoothAddress.invalid "00:11:22").
Proof. reflexivity. Qed.

Example card_ok :
  fst (get_card_index "11:22:33:44:55:66"
         (const_env ("index: 1" ++ nl ++ "name: <bluez_card.11_22_33_44_55_66>"))
         initial) = Ok "1".
Proof. reflexivity. Qed.

(** ** Characters: facts by enumeration *)

Ltac each_char c := destruct c as [[] [] [] [] [] [] [] []].

Lemma ignorecase_hex (c : ascii) :
  Chr.ignorecase Chr.hex_lower c = hex_digit c.
Proof. each_char c; reflexivity. Qed.

Lemma hex_upper_py_upper (c : ascii) :
  hex_digit c = true -> Chr.hex_upper (Chr.py_upper c) = true.
Proof. each_char c; vm_compute; congruence. Qed.

Lemma hex_not_colon (c : ascii) :
  hex_digit c = true -> Chr.same ":" c = false.
Proof. each_char c; vm_compute; congruence. Qed.

Lemma hex_upper_not_colon (c : ascii) :
  Chr.hex_upper c = true -> Chr.same ":" c = false.
Proof. each_char c; vm_compute; congruence. Qed.

Lemma digit_not_space (c : ascii) :
  Chr.space c = true -> Chr.digit c = false.
Proof. each_char c; vm_compute; congruence. Qed.

Lemma same_true (a c : ascii) : Chr.same a c = true <-> c = a.
Proof. unfold Chr.same. apply Ascii.eqb_eq. Qed.

Lemma same_refl (a : ascii) : Chr.same a a = true.
Proof. apply same_true. reflexivity. Qed.

(** ** Strings: prefixes, substrings, pieces *)

Lemma strip_Some (w s rest : string) :
  strip w s = Some rest <-> s = w ++ rest.
Proof.
  revert s. induction w as [|a w IH]; intros s; simpl.
  - split; congruence.
  - destruct s as [|c s].
    + split; discriminate.
    + destruct (Chr.same a c) eqn:E.
      * apply same_true in E. subst c. rewrite IH. split; congruence.
      * split; [discriminate|]. intros H. injection H as H1 H2.
        subst c. rewrite same_refl in E. discriminate.
  Qed.

Lemma strip_app (w rest : string) : strip w (w ++ rest) = Some rest.
Proof. apply strip_Some. reflexivity. Qed.

Lemma app_assoc_s (a b c : string) : (a ++ b) ++ c = a ++ b ++ c.
Proof. induction a as [|x a IH]; simpl; [reflexivity | now rewrite IH]. Qed.

Lemma app_nil_r_s (a : string) : a ++ "" = a.
Proof. induction a as [|x a IH]; simpl; [reflexivity | now rewrite IH]. Qed.

Lemma length_app_s (a b : string) :
  String.length (a ++ b) = String.length a + String.length b.
Proof. induction a as [|x a IH]; simpl; [reflexivity | now rewrite IH]. Qed.

(** [needle in hay] holds exactly when the text splits around the needle. *)
Lemma str_in_true (needle hay : string) :
  str_in needle hay = true <->
  exists pre post, hay = pre ++ needle ++ post.
Proof.
  induction hay as [|c hay IH]; simpl.
  - destruct (strip needle "") as [rest|] eqn:E.
    + apply strip_Some in E. split; [|reflexivity].
      intros _. exists "", rest. exact E.
    + split; [discriminate|]. intros (pre & post & H).
      destruct pre; [|discriminate]. simpl in H.
      apply strip_Some in H. congruence.
  - destruct (strip needle (String c hay)) as [rest|] eqn:E.
    + apply strip_Some in E. split; [|reflexivity].
      intros _. exists "", rest. exact E.
    + rewrite IH. split.
      * intros (pre & post & H). exists (String c pre), post.
        simpl. now rewrite H.
      * intros (pre & post & H). destruct pre as [|x pre].
        -- simpl in H. apply strip_Some in H. congruence.
        -- simpl in H. injection H as _ H. now exists pre, post.
Qed.

Lemma split_nonempty (sep : ascii) (s : string) : split sep s <> [].
Proof.
  destruct s as [|c s]; simpl; [discriminate|].
  destruct (Chr.same sep c); [discriminate|].
  destruct (split sep s); discriminate.
Qed.

(** Joining the pieces gives the text back. *)
Lemma join_split (sep : ascii) (s : string) : join sep (split sep s) = s.
Proof.
  induction s as [|c s IH]; [reflexivity|].
  simpl. destruct (Chr.same sep c) eqn:E.
  - apply same_true in E. subst c.
    pose proof (split_nonempty sep s) as N.
    destruct (split sep s) as [|g gs]; [congruence|].
    change (join sep ("" :: g :: gs)) with (String sep (join sep (g :: gs))).
    now rewrite IH.
  - pose proof (split_nonempty sep s) as N.
    destruct (split sep s) as [|g gs]; [congruence|].
    rewrite <- IH. destruct gs; reflexivity.
Qed.

(** ** The address pattern *)

Arguments Chr.ignorecase : simpl never.
Arguments Chr.hex_lower : simpl never.
Arguments Chr.hex_upper : simpl never.
Arguments Chr.same : simpl never.
Arguments Chr.py_upper : simpl never.
Arguments hex_digit : simpl never.

Lemma byte_pair_inv (p : ascii -> bool) (g : string) :
  byte_pair p g = true ->
  exists a b, g = String a (String b "") /\ p a = true /\ p b = true.
Proof.
  destruct g as [|a [|b [|c g]]]; simpl; try discriminate.
  intros H. apply andb_true_iff in H. now exists a, b.
Qed.

Lemma six_pairs_render (p : ascii -> bool) (s : string) :
  six_pairs p s = true ->
  exists ps, s = render ps /\ length ps = 6 /\ forallb (both p) ps = true.
Proof.
  unfold six_pairs. intros H. apply andb_true_iff in H as [L F].
  apply Nat.eqb_eq in L. rewrite <- (join_split ":" s).
  destruct (split ":" s) as [|g1 [|g2 [|g3 [|g4 [|g5 [|g6 [|g7 gs]]]]]]];
    try discriminate.
  simpl in F.
  repeat match type of F with
         | (_ && _) = true => apply andb_true_iff in F as [?F F]
         end.
  repeat match goal with
         | H : byte_pair p _ = true |- _ =>
             apply byte_pair_inv in H as (?a & ?b & -> & ?P & ?P)
         end.
  match goal with
  | |- exists ps, join _ [String ?x1 (String ?y1 _); String ?x2 (String ?y2 _);
                          String ?x3 (String ?y3 _); String ?x4 (String ?y4 _);
                          String ?x5 (String ?y5 _); String ?x6 (String ?y6 _)] = _ /\ _ =>
      exists [(x1, y1); (x2, y2); (x3, y3); (x4, y4); (x5, y5); (x6, y6)]
  end.
  split; [reflexivity|]. split; [reflexivity|].
  unfold both; simpl.
  repeat match goal with H : p _ = true |- _ => rewrite H; clear H end.
  reflexivity.
Qed.

Ltac six ps :=
  destruct ps as [|[?a ?b] [|[?a ?b] [|[?a ?b] [|[?a ?b] [|[?a ?b] [|[?a ?b] [|? ?]]]]]]];
  try discriminate.

Ltac split_ands F :=
  unfold both in F; simpl in F;
  repeat match goal with
         | H : (_ && _) = true |- _ => apply andb_true_iff in H as [? ?]
         end.

Lemma split_pair (a b : ascii) (s : string) :
  Chr.same ":" a = false -> Chr.same ":" b = false ->
  split ":" (String a (String b (String ":" s))) =
  String a (String b "") :: split ":" s.
Proof. intros A B. simpl. rewrite A, B. reflexivity. Qed.

Lemma split_last (a b : ascii) :
  Chr.same ":" a = false -> Chr.same ":" b = false ->
  split ":" (String a (String b "")) = [String a (String b "")].
Proof. intros A B. simpl. rewrite A, B. reflexivity. Qed.

Lemma render_six_pairs (p : ascii -> bool) (ps : list (ascii * ascii)) :
  (forall c, p c = true -> Chr.same ":" c = false) ->
  length ps = 6 -> forallb (both p) ps = true ->
  six_pairs p (render ps) = true.
Proof.
  intros NC L F. six ps. clear L. split_ands F.
  unfold six_pairs, render.
  cbn [map join fst snd append].
  rewrite !split_pair, split_last by auto.
  cbn [length Nat.eqb forallb byte_pair andb].
  repeat match goal with H : p _ = true |- _ => rewrite H; clear H end.
  reflexivity.
Qed.

(** What the pattern accepts: six pairs, and nothing after them but,
    possibly, one newline. *)
Lemma RE_BT_ADDRESS_sound (s : string) (m : Re.Match) :
  Re.match_ BluetoothAddress.RE_BT_ADDRESS s = Some m ->
  exists ps tail,
    s = render ps ++ tail /\ length ps = 6 /\
    forallb (both hex_digit) ps = true /\ (tail = "" \/ tail = nl).
Proof.
  unfold Re.match_, Re.match_at, BluetoothAddress.RE_BT_ADDRESS. simpl.
  intros H.
  repeat match type of H with
  | match ?x with EmptyString => None | String _ _ => _ end = Some _ =>
      destruct x; [discriminate|]
  | (if ?b then _ else None) = Some _ =>
      let E := fresh "E" in destruct b eqn:E; [|discriminate]
  end.
  repeat match goal with
         | E : Chr.same _ _ = true |- _ => apply same_true in E; subst
         | E : Chr.ignorecase _ _ = true |- _ => rewrite ignorecase_hex in E
         end.
  match goal with
  | |- exists ps tail,
        String ?x1 (String ?y1 (String _ (String ?x2 (String ?y2 (String _
        (String ?x3 (String ?y3 (String _ (String ?x4 (String ?y4 (String _
        (String ?x5 (String ?y5 (String _ (String ?x6 (String ?y6 ?t))))))))))))))))
        = _ /\ _ =>
      exists [(x1, y1); (x2, y2); (x3, y3); (x4, y4); (x5, y5); (x6, y6)], t
  end.
  split; [reflexivity|]. split; [reflexivity|]. split.
  - unfold both. simpl.
    repeat match goal with H : hex_digit _ = true |- _ => rewrite H; clear H end.
    reflexivity.
  - match goal with E : Re.at_eol ?t = true |- _ =>
      destruct t as [|c [|c' t']]; simpl in E; try discriminate;
      [now left | right; apply same_true in E; now subst]
    end.
Qed.

Lemma RE_BT_ADDRESS_complete (ps : list (ascii * ascii)) (tail : string) :
  length ps = 6 -> forallb (both hex_digit) ps = true ->
  tail = "" \/ tail = nl ->
  Re.match_ BluetoothAddress.RE_BT_ADDRESS (render ps ++ tail) =
  Some (Re.mkMatch 0 17 []).
Proof.
  intros L F T. six ps. clear L. split_ands F.
  unfold Re.match_, Re.match_at, BluetoothAddress.RE_BT_ADDRESS, render.
  cbn [map join fst snd append Re.times Re.lit Re.exec].
  rewrite !ignorecase_hex.
  repeat match goal with H : hex_digit _ = true |- _ => rewrite H; clear H end.
  rewrite ?same_refl.
  destruct T as [-> | ->]; reflexivity.
Qed.

(** ** The validator *)

Lemma upper_render (ps : list (ascii * ascii)) :
  length ps = 6 ->
  upper (render ps) =
  render (map (fun ab => (Chr.py_upper (fst ab), Chr.py_upper (snd ab))) ps).
Proof. intros L. six ps. reflexivity. Qed.

Lemma validator_accepts (ps : list (ascii * ascii)) (tail : string) :
  length ps = 6 -> forallb (both hex_digit) ps = true ->
  tail = "" \/ tail = nl ->
  BluetoothAddress.__call__ (PyStr (render ps ++ tail)) =
  Ok (upper (render ps ++ tail)).
Proof.
  intros L F T. unfold BluetoothAddress.__call__.
  cbn [py_str]. now rewrite RE_BT_ADDRESS_complete.
Qed.

(** The validator accepts exactly the six pairs and the six pairs
    followed by one newline. *)
Lemma validator_accepts_iff (s : string) :
  (exists a, BluetoothAddress.__call__ (PyStr s) = Ok a) <->
  six_hex_pairs s = true \/
  exists s0, s = s0 ++ nl /\ six_hex_pairs s0 = true.
Proof.
  split.
  - intros [a H]. unfold BluetoothAddress.__call__ in H. cbn [py_str] in H.
    destruct (Re.match_ BluetoothAddress.RE_BT_ADDRESS s) as [m|] eqn:E;
      [|discriminate].
    apply RE_BT_ADDRESS_sound in E as (ps & tail & -> & L & F & [-> | ->]).
    + left. rewrite app_nil_r_s.
      apply render_six_pairs; auto using hex_not_colon.
    + right. exists (render ps). split; [reflexivity|].
      apply render_six_pairs; auto using hex_not_colon.
  - intros [H | (s0 & -> & H)];
      apply six_pairs_render in H as (ps & -> & L & F).
    + exists (upper (render ps ++ "")).
      rewrite <- (app_nil_r_s (render ps)) at 1.
      apply validator_accepts; auto.
    + exists (upper (render ps ++ nl)). apply validator_accepts; auto.
Qed.

Lemma validator_total (v : pyval) :
  (exists a, BluetoothAddress.__call__ v = Ok a) \/
  BluetoothAddress.__call__ v = Raise (BluetoothAddress.invalid (py_str v)).
Proof.
  unfold BluetoothAddress.__call__.
  destruct (Re.match_ _ _); [left; eauto | now right].
Qed.

Lemma string_of_uint_numeral (d : Decimal.uint) :
  sall numeral_char (NilEmpty.string_of_uint d) = true.
Proof. induction d; simpl; auto. Qed.

Lemma py_str_int_numeral (z : Z) :
  sall numeral_char (py_str (PyInt z)) = true.
Proof.
  cbn [py_str]. unfold NilZero.string_of_int, NilZero.string_of_uint.
  destruct (Z.to_int z) as [d|d]; destruct d; try reflexivity;
    repeat match goal with
           | |- sall _ (String "-" ?s) = true =>
               change (sall numeral_char s = true)
           | |- sall _ (NilEmpty.string_of_uint ?u) = true =>
               apply (string_of_uint_numeral u)
           end.
Qed.

Lemma no_numeral_address (ps : list (ascii * ascii)) (tail : string) :
  length ps = 6 -> sall numeral_char (render ps ++ tail) = false.
Proof.
  intros L. six ps. cbn [render map join fst snd append sall].
  destruct (numeral_char a); [|reflexivity].
  destruct (numeral_char b); reflexivity.
Qed.

Lemma validator_rejects_int (z : Z) :
  BluetoothAddress.__call__ (PyInt z) =
  Raise (BluetoothAddress.invalid (py_str (PyInt z))).
Proof.
  destruct (validator_total (PyInt z)) as [[a H] | H]; [|exact H].
  exfalso. unfold BluetoothAddress.__call__ in H.
  destruct (Re.match_ _ _) as [m|] eqn:E; [|discriminate].
  apply RE_BT_ADDRESS_sound in E as (ps & tail & S & L & _).
  pose proof (py_str_int_numeral z) as N. rewrite S in N.
  rewrite no_numeral_address in N by assumption. discriminate.
Qed.

(** Outside the accepted shapes the validator raises, for texts and for
    integers alike. *)
Lemma validator_rejects (v : pyval) :
  (forall s, v = PyStr s ->
     six_hex_pairs s = false /\
     forall s0, s = s0 ++ nl -> six_hex_pairs s0 = false) ->
  BluetoothAddress.__call__ v =
  Raise (BluetoothAddress.invalid (py_str v)).
Proof.
  intros H. destruct v as [s|z]; [|apply validator_rejects_int].
  destruct (validator_total (PyStr s)) as [A | R]; [|exact R].
  exfalso. destruct (H s eq_refl) as [H1 H2].
  apply validator_accepts_iff in A as [A | (s0 & -> & A)].
  - congruence.
  - rewrite (H2 s0 eq_refl) in A. discriminate.
Qed.

(** C8. Every text of six colon-separated pairs of hexadecimal digits,
    in either case, is accepted by the validator, which returns the text
    in upper case; the result has the canonical form
    [XX:XX:XX:XX:XX:XX] of upper-case hexadecimal digits. *)
Theorem validator_canonical (s : string) :
  six_hex_pairs s = true ->
  BluetoothAddress.__call__ (PyStr s) = Ok (upper s) /\
  canonical (upper s) = true.
Proof.
  intros H. apply six_pairs_render in H as (ps & -> & L & F). split.
  - rewrite <- (app_nil_r_s (render ps)). apply validator_accepts; auto.
  - rewrite upper_render by assumption.
    apply render_six_pairs.
    + apply hex_upper_not_colon.
    + now rewrite length_map.
    + clear L. induction ps as [|[a b] ps IH]; [reflexivity|].
      cbn [forallb map] in *. apply andb_true_iff in F as [F1 F2].
      rewrite (IH F2), andb_true_r. unfold both in *. cbn [fst snd] in *.
      apply andb_true_iff in F1 as [Fa Fb].
      now rewrite !hex_upper_py_upper.
Qed.

Lemma validator_canonical_witness :
  six_hex_pairs "aa:bb:cc:DD:EE:0f" = true /\
  BluetoothAddress.__call__ (PyStr "aa:bb:cc:DD:EE:0f") = Ok "AA:BB:CC:DD:EE:0F" /\
  canonical "AA:BB:CC:DD:EE:0F" = true.
Proof.
  split; [reflexivity|].
  apply (validator_canonical "aa:bb:cc:DD:EE:0f"). reflexivity.
Defined.

(** C9, at a text that is not six pairs. The text of six pairs followed
    by a newline has eighteen characters and seven pieces between its
    colons and newline, so it is not an address; the validator accepts
    it all the same and returns it with the newline, because [$] also
    matches just before a newline that ends the text. *)
Theorem validator_accepts_trailing_newline :
  six_hex_pairs ("11:22:33:44:55:6a" ++ nl) = false /\
  String.length ("11:22:33:44:55:6a" ++ nl) = 18 /\
  BluetoothAddress.__call__ (PyStr ("11:22:33:44:55:6a" ++ nl)) =
  Ok ("11:22:33:44:55:6A" ++ nl) /\
  canonical ("11:22:33:44:55:6A" ++ nl) = false.
Proof. repeat split; reflexivity. Qed.

(** ** Sequencing *)

Lemma bind_ok {A B} (m : M A) (f : A -> M B) env st a st' :
  m env st = (Ok a, st') -> bind m f env st = f a env st'.
Proof. unfold bind. now intros ->. Qed.

Lemma bind_raise {A B} (m : M A) (f : A -> M B) env st e st' :
  m env st = (Raise e, st') -> bind m f env st = (Raise e, st').
Proof. unfold bind. now intros ->. Qed.

Lemma run_ok (c : Cmd) env st :
  returncode (answer env (length (calls st))) = 0%Z ->
  subprocess_run c env st =
  (Ok (answer env (length (calls st))), mkState (reads st) (c :: calls st)).
Proof. unfold subprocess_run. now intros ->. Qed.

Lemma run_fail (c : Cmd) env st :
  returncode (answer env (length (calls st))) <> 0%Z ->
  subprocess_run c env st =
  (Raise (CalledProcessError (returncode (answer env (length (calls st)))) (args c)),
   mkState (reads st) (c :: calls st)).
Proof.
  unfold subprocess_run. intros H.
  apply Z.eqb_neq in H. now rewrite H.
Qed.

(** ** connect_device *)

(** C3. When the connect command has run, [connect_device] raises the
    not-available error exactly when the output contains
    [Device <address> not available] for the address it was given;
    without that text it returns, whatever else the output holds. One
    call is made either way. *)
Theorem connect_device_unavailable_iff
    (env : Env) (st : State) (address : string) :
  let p := answer env (length (calls st)) in
  let marked :=
    exists pre post,
      stdout p = pre ++ ("Device " ++ address ++ " not available") ++ post in
  returncode p = 0%Z ->
  (fst (connect_device address env st) = Raise (not_available address)
   <-> marked) /\
  (~ marked -> fst (connect_device address env st) = Ok tt) /\
  snd (connect_device address env st) =
  mkState (reads st) (bluetoothctl ("connect " ++ address) :: calls st).
Proof.
  intros p marked H. unfold connect_device.
  rewrite (bind_ok _ _ _ _ _ _ (run_ok _ env st H)). fold p.
  destruct (str_in ("Device " ++ address ++ " not available") (stdout p)) eqn:E.
  - assert (marked) by (now apply str_in_true).
    cbn. repeat split; tauto.
  - assert (~ marked) as N.
    { intros Mk. apply str_in_true in Mk. congruence. }
    cbn. repeat split; try tauto. discriminate.
Qed.

Lemma connect_device_unavailable_iff_witness :
  let env := const_env "Device AA:BB:CC:DD:EE:FF not available" in
  returncode (answer env 0) = 0%Z /\
  fst (connect_device "AA:BB:CC:DD:EE:FF" env initial) =
  Raise (not_available "AA:BB:CC:DD:EE:FF").
Proof.
  intros env. split; [reflexivity|].
  apply (proj1 (connect_device_unavailable_iff env initial "AA:BB:CC:DD:EE:FF"
                  eq_refl)).
  exists "", "". reflexivity.
Defined.


(** ** The comparison of the elapsed time *)

Section Rounding.
Local Open Scope Z_scope.

Lemma round_half_even_spec (n d : Z) :
  0 < d ->
  - d <= 2 * (Float.round_half_even n d * d - n) <= d.
Proof.
  intros D. unfold Float.round_half_even.
  pose proof (Z.div_mod n d ltac:(lia)) as E.
  pose proof (Z.mod_pos_bound n d D) as B.
  destruct (2 * (n mod d) <? d) eqn:A; [apply Z.ltb_lt in A; nia|].
  apply Z.ltb_ge in A.
  destruct (d <? 2 * (n mod d)) eqn:C; [apply Z.ltb_lt in C; nia|].
  apply Z.ltb_ge in C.
  destruct (Z.even (n / d)); nia.
Qed.

Lemma round_half_even_nonneg (n d : Z) :
  0 <= n -> 0 < d -> 0 <= Float.round_half_even n d.
Proof.
  intros N D. pose proof (round_half_even_spec n d D). nia.
Qed.

Lemma pow2_pos (e : Z) : 0 < 2 ^ e \/ 2 ^ e = 0.
Proof.
  destruct (Z.le_gt_cases 0 e) as [H | H].
  - left. now apply Z.pow_pos_nonneg.
  - right. now apply Z.pow_neg_r.
Qed.

(** The mantissa of a quotient has the sign of the dividend. *)
Lemma truediv_nonneg (n : Z) :
  0 <= n -> 0 <= fst (Float.truediv n 1000000).
Proof.
  intros N. unfold Float.truediv.
  destruct (n =? 0) eqn:Z0; [cbn; lia|]. apply Z.eqb_neq in Z0.
  cbn [fst]. rewrite Z.sgn_pos, Z.abs_eq by lia. rewrite Z.mul_1_l.
  match goal with
  | |- 0 <= (if 0 <=? ?x then _ else _) => set (e := x); destruct (0 <=? e) eqn:E
  end.
  - apply Z.leb_le in E. apply round_half_even_nonneg; [lia|].
    pose proof (Z.pow_pos_nonneg 2 e ltac:(lia) E). lia.
  - apply Z.leb_gt in E. apply round_half_even_nonneg; [|lia].
    pose proof (Z.pow_pos_nonneg 2 (- e) ltac:(lia) ltac:(lia)). nia.
Qed.

Lemma exponent_small (a : Z) :
  0 < a -> a < 2 ^ 34 * 1000000 -> Float.exponent a 1000000 <= 33.
Proof.
  intros A B. unfold Float.exponent. change (Z.log2 1000000) with 19.
  assert (Z.log2 a < 54) as L.
  { apply Z.log2_lt_pow2; [exact A|]. change (2 ^ 54) with 18014398509481984.
    change (2 ^ 34) with 17179869184 in B. lia. }
  destruct (Float.scaled_le 1000000 (Z.log2 a - 19) a) eqn:S; [|lia].
  destruct (Z.eq_dec (Z.log2 a - 19) 34) as [E | E]; [|lia].
  rewrite E in S. unfold Float.scaled_le in S. cbn in S.
  apply Z.leb_le in S. change (2 ^ 34) with 17179869184 in B. lia.
Qed.

Lemma exponent_large (a : Z) :
  0 < a -> 52 <= Float.exponent a 1000000 ->
  1000000 * 2 ^ Float.exponent a 1000000 <= a.
Proof.
  intros A. unfold Float.exponent. change (Z.log2 1000000) with 19.
  destruct (Float.scaled_le 1000000 (Z.log2 a - 19) a) eqn:S; intros F.
  - unfold Float.scaled_le in S.
    destruct (0 <=? Z.log2 a - 19) eqn:P; [|apply Z.leb_gt in P; lia].
    now apply Z.leb_le in S.
  - pose proof (Z.log2_spec a A) as [Lo _].
    replace (Z.log2 a) with (20 + (Z.log2 a - 19 - 1)) in Lo at 1 by lia.
    rewrite Z.pow_add_r in Lo by lia.
    change (2 ^ 20) with 1048576 in Lo.
    pose proof (Z.pow_pos_nonneg 2 (Z.log2 a - 19 - 1) ltac:(lia) ltac:(lia)).
    nia.
Qed.

(** Elapsed time that is not negative is not below a timeout of zero or
    less, whatever the rounding. *)
Lemma within_nonneg (start now timeout : Z) :
  start <= now -> timeout <= 0 -> within start now timeout = false.
Proof.
  intros S T. unfold within, total_seconds.
  pose proof (truediv_nonneg (now - start) ltac:(lia)) as M.
  destruct (Float.truediv (now - start) 1000000) as [m e]. cbn [fst] in M.
  unfold Float.lt_int. destruct (0 <=? e) eqn:E.
  - apply Z.leb_le in E. apply Z.ltb_ge.
    pose proof (Z.pow_pos_nonneg 2 e ltac:(lia) E). nia.
  - apply Z.leb_gt in E. apply Z.ltb_ge.
    pose proof (Z.pow_pos_nonneg 2 (- e) ltac:(lia) ltac:(lia)). nia.
Qed.

Ltac same_ltb :=
  match goal with
  | |- (?a <? ?b) = (?c <? ?d) =>
      destruct (Z.ltb_spec a b), (Z.ltb_spec c d); try reflexivity; exfalso
  end.

(** The comparison for an elapsed time that is not zero, by its size
    [a] and its sign [sg]. *)
Lemma within_exact_signed (a sg timeout : Z) :
  0 < a -> sg = 1 \/ sg = -1 ->
  Z.abs timeout < 17179869184 ->
  let e := Float.exponent a 1000000 - 52 in
  let m := if 0 <=? e then Float.round_half_even a (1000000 * 2 ^ e)
           else Float.round_half_even (a * 2 ^ (- e)) 1000000 in
  Float.lt_int (sg * m, e) timeout = (sg * a <? timeout * 1000000).
Proof.
  intros A Sg B e m.
  pose proof (exponent_small a A) as Small.
  pose proof (exponent_large a A) as Large.
  change (2 ^ 34) with 17179869184 in Small.
  unfold Float.lt_int. subst m. fold e.
  destruct (0 <=? e) eqn:E.
  - (* a mantissa of whole seconds: the elapsed time is huge *)
    apply Z.leb_le in E. specialize (Large ltac:(lia)).
    assert (17179869184 * 1000000 <= a) as Huge.
    { destruct (Z.le_gt_cases (17179869184 * 1000000) a); [assumption|].
      specialize (Small ltac:(lia)). lia. }
    set (P := 2 ^ e).
    assert (0 < P) as PP by (apply Z.pow_pos_nonneg; lia).
    assert (2 ^ Float.exponent a 1000000 = 4503599627370496 * P) as F.
    { replace (Float.exponent a 1000000) with (52 + e) by lia.
      rewrite Z.pow_add_r by lia. reflexivity. }
    rewrite F in Large.
    pose proof (round_half_even_spec a (1000000 * P) ltac:(lia)) as R.
    set (m := Float.round_half_even a (1000000 * P)) in *.
    assert (4503599627370496 <= m) as M by nia.
    assert (17179869184 <= m * P) as V by nia.
    destruct Sg as [-> | ->]; same_ltb; nia.
  - apply Z.leb_gt in E.
    set (s := 2 ^ (- e)).
    assert (0 < s) as SP by (apply Z.pow_pos_nonneg; lia).
    pose proof (round_half_even_spec (a * s) 1000000 ltac:(lia)) as R.
    set (m := Float.round_half_even (a * s) 1000000) in *.
    destruct (Z.le_gt_cases (17179869184 * 1000000) a) as [Huge | Mod].
    + (* at least 2^34 seconds, on either side *)
      assert (17179869184 * s <= m) as M by nia.
      destruct Sg as [-> | ->]; same_ltb; nia.
    + (* the grid of the doubles is finer than a microsecond *)
      specialize (Small ltac:(lia)).
      assert (524288 <= s) as Fine.
      { change 524288 with (2 ^ 19). apply Z.pow_le_mono_r; lia. }
      destruct Sg as [-> | ->]; same_ltb; nia.
Qed.

(** For a timeout below [2^34] seconds the rounding does not show: the
    comparison is that of the microseconds. *)
Lemma within_exact (start now timeout : Z) :
  Z.abs timeout < 2 ^ 34 ->
  within start now timeout = (now - start <? timeout * 1000000).
Proof.
  intros B. change (2 ^ 34) with 17179869184 in B.
  unfold within, total_seconds, Float.truediv.
  set (n := now - start).
  destruct (n =? 0) eqn:Z0.
  - apply Z.eqb_eq in Z0. rewrite Z0. cbn.
    destruct (Z.ltb_spec 0 timeout), (Z.ltb_spec 0 (timeout * 1000000)); lia.
  - apply Z.eqb_neq in Z0. cbv zeta.
    destruct (Z.lt_total n 0) as [Neg | [? | Pos]]; [| lia |].
    + rewrite (Z.sgn_neg n Neg).
      rewrite (within_exact_signed (Z.abs n) (-1) timeout) by lia.
      f_equal. lia.
    + rewrite (Z.sgn_pos n Pos).
      rewrite (within_exact_signed (Z.abs n) 1 timeout) by lia.
      f_equal. lia.
Qed.

End Rounding.

(** ** wait_until_connected *)

Lemma repeat_shift {A} (x : A) (k : nat) (l : list A) :
  (repeat x k ++ x :: l = x :: repeat x k ++ l)%list.
Proof. induction k as [|k IH]; simpl; [reflexivity | now rewrite IH]. Qed.

Section Wait.
Variable env : Env.
Variable address : string.
Variable timeout : Z.
Variable start : Z.


Lemma wait_loop_turn (fuel : nat) (st : State) :
  turn_check env start timeout st 0 = true ->
  returncode (turn_poll env st 0) = 0%Z ->
  wait_loop (S fuel) address timeout start env st =
  if connected (turn_poll env st 0)
  then (Ok tt, after_polls 1 address st)
  else wait_loop fuel address timeout start env (after_polls 1 address st).
Proof.
  unfold turn_check, turn_poll. rewrite !Nat.add_0_r. intros C P.
  cbn [wait_loop]. unfold bind at 1. cbn [datetime_now].
  rewrite C.
  pose proof (run_ok (info address) env (mkState (S (reads st)) (calls st))) as R.
  cbn [calls reads] in R. specialize (R P).
  unfold info in R at 1.
  rewrite (bind_ok _ _ _ _ _ _ R).
  unfold connected, after_polls. cbn [repeat app].
  rewrite Nat.add_1_r.
  destruct (str_in _ _); reflexivity.
Qed.

Lemma wait_loop_deadline (fuel : nat) (st : State) :
  turn_check env start timeout st 0 = false ->
  wait_loop (S fuel) address timeout start env st =
  (Raise (timed_out address), mkState (S (reads st)) (calls st)).
Proof.
  unfold turn_check. rewrite Nat.add_0_r. intros C.
  cbn [wait_loop]. unfold bind at 1. cbn [datetime_now].
  now rewrite C.
Qed.

Lemma after_polls_S (k : nat) (st : State) :
  after_polls k address (after_polls 1 address st) = after_polls (S k) address st.
Proof.
  unfold after_polls. cbn [reads calls repeat app].
  f_equal; [lia | apply repeat_shift].
Qed.

(** [k] turns that pass the check and find no marker are [k] polls. *)
Lemma wait_loop_skip (k fuel : nat) (st : State) :
  (forall j, j < k ->
     turn_check env start timeout st j = true /\ returncode (turn_poll env st j) = 0%Z /\
     connected (turn_poll env st j) = false) ->
  wait_loop (k + fuel) address timeout start env st =
  wait_loop fuel address timeout start env (after_polls k address st).
Proof.
  revert st. induction k as [|k IH]; intros st H.
  - unfold after_polls. cbn. rewrite Nat.add_0_r. now destruct st.
  - destruct (H 0 ltac:(lia)) as (C & P & N).
    cbn [Nat.add]. rewrite wait_loop_turn by assumption. rewrite N.
    rewrite IH; [now rewrite after_polls_S|].
    intros j Hj. specialize (H (S j) ltac:(lia)).
    unfold turn_check, turn_poll, after_polls in *. cbn [reads calls repeat app length].
    replace (reads st + 1 + j) with (reads st + S j) by lia.
    replace (S (length (calls st)) + j) with (length (calls st) + S j) by lia.
    exact H.
Qed.

(** The outcome of the loop after [k] fruitless turns, by what the
    next turn sees. *)
Lemma wait_loop_outcome (k fuel : nat) (st : State) :
  k < fuel ->
  (forall j, j < k ->
     turn_check env start timeout st j = true /\ returncode (turn_poll env st j) = 0%Z /\
     connected (turn_poll env st j) = false) ->
  (turn_check env start timeout st k = false ->
     wait_loop fuel address timeout start env st =
     (Raise (timed_out address),
      mkState (S (reads st + k)) (calls (after_polls k address st)))) /\
  (turn_check env start timeout st k = true -> returncode (turn_poll env st k) = 0%Z ->
   connected (turn_poll env st k) = true ->
     wait_loop fuel address timeout start env st =
     (Ok tt, after_polls (S k) address st)).
Proof.
  intros F H. replace fuel with (k + S (fuel - S k)) by lia.
  rewrite wait_loop_skip by assumption.
  assert (turn_check env start timeout (after_polls k address st) 0 = turn_check env start timeout st k) as EC.
  { unfold turn_check, after_polls. cbn [reads]. now rewrite Nat.add_0_r. }
  assert (turn_poll env (after_polls k address st) 0 = turn_poll env st k) as EP.
  { unfold turn_poll, after_polls. cbn [calls].
    rewrite length_app, repeat_length. f_equal. lia. }
  split.
  - intros C. rewrite wait_loop_deadline by congruence. reflexivity.
  - intros C P Y. rewrite wait_loop_turn by congruence.
    rewrite EP, Y. unfold after_polls. cbn [reads calls repeat app].
    do 2 f_equal. lia.
Qed.

End Wait.

Lemma wait_until_connected_eq (fuel : nat) address timeout env st :
  wait_until_connected fuel address timeout env st =
  wait_loop fuel address timeout (clock env (reads st)) env
    (mkState (S (reads st)) (calls st)).
Proof. reflexivity. Qed.

(** C2. From any state, with [start] the first reading of the clock, the
    [j]-th turn of the loop reads the clock once more and, while the
    time elapsed since [start] is below the timeout, polls once. After
    [k] turns that passed the check and found no marker:
    - if the [k]-th check passes and the [k]-th poll reports
      [Connected: yes], the function returns after [k + 1] polls, and the
      clock is not read again, however late that poll ended;
    - if the [k]-th check finds the deadline passed, the function raises
      the timeout error after [k] polls, the last of which was started
      before the deadline and inspected after it.
    The check is the program's own, on the double of [total_seconds()];
    for a timeout below [2^34] seconds it is the comparison of the
    elapsed microseconds with the deadline.
    Every poll here exits with 0; [fuel] only has to exceed [k]. *)
Theorem wait_until_connected_outcome
    (env : Env) (st : State) (address : string) (timeout : Z) (k fuel : nat) :
  let start := clock env (reads st) in
  let check j := within start (clock env (S (reads st) + j)) timeout in
  let poll j := answer env (length (calls st) + j) in
  k < fuel ->
  (forall j, j <= k -> returncode (poll j) = 0%Z) ->
  (forall j, j < k -> check j = true /\ connected (poll j) = false) ->
  (check k = true -> connected (poll k) = true ->
     wait_until_connected fuel address timeout env st =
     (Ok tt,
      mkState (reads st + k + 2)
        (repeat (info address) (S k) ++ calls st)%list)) /\
  (check k = false ->
     wait_until_connected fuel address timeout env st =
     (Raise (timed_out address),
      mkState (reads st + k + 2) (repeat (info address) k ++ calls st)%list)) /\
  ((Z.abs timeout < 2 ^ 34)%Z ->
     forall j,
       check j =
       (clock env (S (reads st) + j) - start <? timeout * 1000000)%Z).
Proof.
  intros start check poll F P H.
  assert ((Z.abs timeout < 2 ^ 34)%Z ->
          forall j,
            check j =
            (clock env (S (reads st) + j) - start <? timeout * 1000000)%Z)
    as Reading.
  { intros B j. now apply within_exact. }
  rewrite wait_until_connected_eq. fold start.
  pose proof (wait_loop_outcome env address timeout start k fuel
                (mkState (S (reads st)) (calls st)) F) as W.
  cbn [reads calls] in W.
  assert (forall j, j < k ->
            within start (clock env (S (reads st) + j)) timeout = true /\
            returncode (answer env (length (calls st) + j)) = 0%Z /\
            connected (answer env (length (calls st) + j)) = false) as H'.
  { intros j Hj. destruct (H j Hj) as [C N].
    repeat split; auto. apply P. lia. }
  destruct (W H') as [W1 W2]. clear W.
  specialize (P k (Nat.le_refl k)). split; [|split; [|exact Reading]].
  - intros C Y. rewrite W2; auto.
    unfold after_polls. cbn [reads calls]. do 2 f_equal. lia.
  - intros C. rewrite W1; auto.
    unfold after_polls. cbn [reads calls]. do 2 f_equal. lia.
Qed.

Lemma wait_until_connected_outcome_witness :
  let yes_on (n : nat) :=
    mkEnv (fun i => Z.of_nat i * 2000000)%Z
      (fun i => mkCompleted 0
                  (if Nat.eqb i n then "Connected: yes" else "Connected: no")) in
  wait_until_connected 5 "AA:BB:CC:DD:EE:FF" 5 (yes_on 1) initial =
    (Ok tt, mkState 3 (repeat (info "AA:BB:CC:DD:EE:FF") 2)) /\
  wait_until_connected 5 "AA:BB:CC:DD:EE:FF" 5 (yes_on 2) initial =
    (Raise (timed_out "AA:BB:CC:DD:EE:FF"),
     mkState 4 (repeat (info "AA:BB:CC:DD:EE:FF") 2)).
Proof.
  intros yes_on. split.
  - apply (proj1 (wait_until_connected_outcome (yes_on 1) initial
                    "AA:BB:CC:DD:EE:FF" 5 1 5
                    ltac:(lia) ltac:(reflexivity)
                    ltac:(intros [|j] Hj; [split; reflexivity | lia])));
      reflexivity.
  - apply (proj1 (proj2 (wait_until_connected_outcome (yes_on 2) initial
                    "AA:BB:CC:DD:EE:FF" 5 2 5
                    ltac:(lia) ltac:(reflexivity)
                    ltac:(intros [|[|j]] Hj; try (split; reflexivity); lia))));
      reflexivity.
Defined.

(** C10. With a timeout of zero or less, and a clock that has not gone
    back between its first two readings, [wait_until_connected] raises
    the timeout error at the first check of the loop: the clock is read
    twice and no call is made. *)
Theorem wait_until_connected_nonpositive
    (env : Env) (st : State) (address : string) (timeout : Z) (fuel : nat) :
  (timeout <= 0)%Z ->
  (clock env (reads st) <= clock env (S (reads st)))%Z ->
  wait_until_connected (S fuel) address timeout env st =
  (Raise (timed_out address), mkState (reads st + 2) (calls st)).
Proof.
  intros T C.
  rewrite wait_until_connected_eq, wait_loop_deadline.
  - cbn [reads calls]. do 2 f_equal. lia.
  - unfold turn_check. cbn [reads]. rewrite Nat.add_0_r.
    now apply within_nonneg.
Qed.

Lemma wait_until_connected_nonpositive_witness :
  wait_until_connected 1 "AA:BB:CC:DD:EE:FF" 0
    (const_env "Connected: yes") initial =
  (Raise (timed_out "AA:BB:CC:DD:EE:FF"), mkState 2 []).
Proof.
  apply (wait_until_connected_nonpositive
           (const_env "Connected: yes") initial "AA:BB:CC:DD:EE:FF" 0 0);
    cbn; lia.
Defined.

(** ** The matcher *)

Section Matcher.
Context {R : Type}.
Implicit Types (k : @Re.cont R) (gs : list (string * string)).

Lemma exec_Cat (r1 r2 : Re.regex) pos s gs k :
  Re.exec (Re.Cat r1 r2) pos s gs k =
  Re.exec r1 pos s gs (fun pos' s' gs' => Re.exec r2 pos' s' gs' k).
Proof. reflexivity. Qed.

Lemma exec_Group_Plus (name : string) (p : ascii -> bool) pos s gs k :
  Re.exec (Re.Group name (Re.Plus p)) pos s gs k =
  match s with
  | String c s' =>
      if p c
      then Re.star p
             (fun pos' s' =>
                k pos' s' ((name, substring 0 (pos' - pos) s) :: gs))
             (S pos) s'
      else None
  | EmptyString => None
  end.
Proof. reflexivity. Qed.

Lemma exec_Star (p : ascii -> bool) pos s gs k :
  Re.exec (Re.Star p) pos s gs k =
  Re.star p (fun pos' s' => k pos' s' gs) pos s.
Proof. reflexivity. Qed.

Lemma exec_lit (w : string) pos s gs k :
  Re.exec (Re.lit w) pos s gs k =
  match strip w s with
  | Some rest => k (pos + String.length w) rest gs
  | None => None
  end.
Proof.
  revert pos s. induction w as [|a w IH]; intros pos s.
  - cbn. now rewrite Nat.add_0_r.
  - cbn [Re.lit Re.exec strip String.length]. destruct s as [|c s]; [reflexivity|].
    destruct (Chr.same a c); [|reflexivity].
    rewrite IH. now rewrite Nat.add_succ_r.
Qed.

Lemma exec_interpolated (pat : string) (e : Re.regex) pos s gs k :
  Re.interpolated pat = Some e ->
  Re.exec e pos s gs k =
  match strip_like pat s with
  | Some rest => k (pos + String.length pat) rest gs
  | None => None
  end.
Proof.
  revert e pos s. induction pat as [|a pat IH]; intros e pos s H.
  - cbn in H. injection H as <-. cbn. now rewrite Nat.add_0_r.
  - cbn [Re.interpolated] in H. cbn [strip_like String.length].
    destruct (Chr.same "." a).
    + destruct (Re.interpolated pat) as [e'|]; [|discriminate].
      injection H as <-. cbn [Re.exec].
      destruct s as [|c s]; [reflexivity|].
      destruct (Chr.dot c); [|reflexivity].
      rewrite (IH e') by reflexivity. now rewrite Nat.add_succ_r.
    + destruct (Re.special a); [discriminate|].
      destruct (Re.interpolated pat) as [e'|]; [|discriminate].
      injection H as <-. cbn [Re.exec].
      destruct s as [|c s]; [reflexivity|].
      destruct (Chr.same a c); [|reflexivity].
      rewrite (IH e') by reflexivity. now rewrite Nat.add_succ_r.
Qed.

(** A run that [star] settles on is a run of the class, and the rest
    of the pattern matched after it. *)
Lemma star_sound (p : ascii -> bool) (k : nat -> string -> option R) pos s r :
  Re.star p k pos s = Some r ->
  exists run rest,
    s = run ++ rest /\ sall p run = true /\
    k (pos + String.length run) rest = Some r.
Proof.
  revert pos. induction s as [|c s IH]; intros pos H; cbn [Re.star] in H.
  - exists "", "". cbn. now rewrite Nat.add_0_r.
  - destruct (p c) eqn:P.
    + destruct (Re.star p k (S pos) s) as [r'|] eqn:E.
      * injection H as <-. destruct (IH _ E) as (run & rest & -> & A & K).
        exists (String c run), rest. cbn. rewrite P, A.
        now rewrite Nat.add_succ_r.
      * exists "", (String c s). cbn. now rewrite Nat.add_0_r.
    + exists "", (String c s). cbn. now rewrite Nat.add_0_r.
Qed.

(** The longest run is tried first. *)
Lemma star_greedy (p : ascii -> bool) (k : nat -> string -> option R)
    pos run rest r :
  sall p run = true -> stops p rest = true ->
  k (pos + String.length run) rest = Some r ->
  Re.star p k pos (run ++ rest) = Some r.
Proof.
  revert pos. induction run as [|c run IH]; intros pos A St K.
  - cbn in *. rewrite Nat.add_0_r in K.
    destruct rest as [|c rest]; [exact K|].
    cbn in *. apply negb_true_iff in St. now rewrite St.
  - cbn in A. apply andb_true_iff in A as [P A].
    cbn [append Re.star]. rewrite P.
    rewrite (IH (S pos) A St); [reflexivity|].
    cbn in K. now rewrite Nat.add_succ_r in K.
Qed.

End Matcher.

Lemma strip_like_Some (pat s rest : string) :
  strip_like pat s = Some rest <->
  exists nm, s = nm ++ rest /\ like pat nm = true.
Proof.
  revert s. induction pat as [|a pat IH]; intros s; cbn [strip_like].
  - split.
    + intros H. injection H as <-. now exists "".
    + intros (nm & -> & L). destruct nm; [reflexivity | discriminate].
  - destruct s as [|c s].
    + split; [discriminate|]. intros (nm & E & L).
      destruct nm; discriminate.
    + split.
      * intros H.
        destruct (if Chr.same "." a then Chr.dot c else Chr.same a c) eqn:E;
          [|discriminate].
        apply IH in H as (nm & -> & L). exists (String c nm).
        cbn. now rewrite E, L.
      * intros (nm & E & L). destruct nm as [|c' nm]; [discriminate|].
        cbn in E, L. injection E as <- ->.
        apply andb_true_iff in L as [L1 L2]. rewrite L1.
        apply IH. now exists nm.
Qed.

Lemma substring_prefix (a b : string) :
  substring 0 (String.length a) (a ++ b) = a.
Proof. induction a as [|c a IH]; cbn; [now destruct b | now rewrite IH]. Qed.

Lemma interpolated_plain (s : string) :
  plain s = true -> exists e, Re.interpolated s = Some e.
Proof.
  induction s as [|c s IH]; cbn; [eauto|].
  intros H. apply andb_true_iff in H as [H1 H2].
  destruct (IH H2) as [e ->].
  destruct (Chr.same "." c); cbn; [eauto|].
  cbn in H1. apply negb_true_iff in H1. rewrite H1. cbn. eauto.
Qed.

Lemma like_refl (s : string) : plain s = true -> like s s = true.
Proof.
  induction s as [|c s IH]; [reflexivity|]. cbn.
  intros H. apply andb_true_iff in H as [H1 H2]. rewrite (IH H2), andb_true_r.
  destruct (Chr.same "." c) eqn:E.
  - apply same_true in E. subst c. reflexivity.
  - apply same_refl.
Qed.

(** ** The index pattern *)

Lemma capture_run (pos : nat) (c : ascii) (run rest : string) :
  substring 0 (S pos + String.length run - pos) (String c (run ++ rest)) =
  String c run.
Proof.
  replace (S pos + String.length run - pos) with (S (String.length run)) by lia.
  cbn [substring]. f_equal. apply substring_prefix.
Qed.

Lemma index_match_sound (g entity : string) (r : Re.regex) pos s m :
  index_pattern g entity = Some r ->
  Re.match_at r pos s = Some m ->
  exists n ws nm rest,
    s = "index: " ++ n ++ ws ++ "name: <" ++ nm ++ ">" ++ rest /\
    n <> "" /\ sall Chr.digit n = true /\ sall Chr.space ws = true /\
    like entity nm = true /\ Re.groups m = [(g, n)].
Proof.
  unfold index_pattern. destruct (Re.interpolated entity) as [e|] eqn:I;
    [|discriminate].
  cbn [option_map]. intros H. injection H as <-.
  unfold Re.match_at, index_regex.
  rewrite exec_Cat, exec_lit.
  destruct (strip "index: " s) as [s1|] eqn:E1; [|discriminate].
  apply strip_Some in E1. subst s.
  rewrite exec_Cat, exec_Group_Plus.
  destruct s1 as [|c s1]; [discriminate|].
  destruct (Chr.digit c) eqn:D; [|discriminate].
  intros H. apply star_sound in H as (run & s2 & -> & Dr & H).
  rewrite exec_Cat, exec_Star in H.
  apply star_sound in H as (ws & s3 & -> & W & H).
  rewrite exec_Cat, exec_lit in H.
  destruct (strip "name: <" s3) as [s4|] eqn:E4; [|discriminate].
  apply strip_Some in E4. subst s3.
  rewrite exec_Cat, (exec_interpolated entity e) in H by assumption.
  destruct (strip_like entity s4) as [s5|] eqn:E5; [|discriminate].
  apply strip_like_Some in E5 as (nm & -> & L).
  rewrite exec_lit in H.
  destruct (strip ">" s5) as [s6|] eqn:E6; [|discriminate].
  apply strip_Some in E6. subst s5.
  rewrite capture_run in H. injection H as <-.
  exists (String c run), ws, nm, s6. cbn [Re.groups sall]. rewrite D.
  repeat split; try assumption. discriminate.
Qed.

Lemma stops_digit (ws tail : string) :
  sall Chr.space ws = true ->
  stops Chr.digit (ws ++ "name: <" ++ tail) = true.
Proof.
  destruct ws as [|c ws]; [reflexivity|]. cbn.
  intros H. apply andb_true_iff in H as [H _].
  now rewrite (digit_not_space c H).
Qed.

Lemma index_match_complete (g entity : string) (r : Re.regex) pos n ws nm rest :
  index_pattern g entity = Some r ->
  n <> "" -> sall Chr.digit n = true -> sall Chr.space ws = true ->
  like entity nm = true ->
  exists e,
    Re.match_at r pos ("index: " ++ n ++ ws ++ "name: <" ++ nm ++ ">" ++ rest) =
    Some (Re.mkMatch pos e [(g, n)]).
Proof.
  unfold index_pattern. destruct (Re.interpolated entity) as [e|] eqn:I;
    [|discriminate].
  cbn [option_map]. intros H N D W L. injection H as <-.
  unfold Re.match_at, index_regex.
  destruct n as [|c n]; [congruence|]. cbn in D.
  apply andb_true_iff in D as [Dc D].
  assert (stops Chr.digit (ws ++ "name: <" ++ nm ++ ">" ++ rest) = true) as S1
    by now apply stops_digit.
  set (tail := "name: <" ++ nm ++ ">" ++ rest) in *.
  assert (stops Chr.space tail = true) as S2 by reflexivity.
  eexists.
  rewrite exec_Cat, exec_lit, (strip_app "index: ").
  rewrite exec_Cat, exec_Group_Plus. cbn [append]. rewrite Dc.
  apply star_greedy; [assumption | exact S1 |].
  rewrite exec_Cat, exec_Star.
  apply star_greedy; [assumption | exact S2 |].
  subst tail.
  rewrite exec_Cat, exec_lit, (strip_app "name: <").
  rewrite exec_Cat, (exec_interpolated entity e) by assumption.
  assert (strip_like entity (nm ++ ">" ++ rest) = Some (">" ++ rest)) as ->.
  { apply strip_like_Some. now exists nm. }
  rewrite exec_lit, (strip_app ">").
  rewrite capture_run. reflexivity.
Qed.

(** ** Searching *)

Lemma search_sound (r : Re.regex) pos s m :
  Re.search_from r pos s = Some m ->
  exists pre s',
    s = pre ++ s' /\ Re.match_at r (pos + String.length pre) s' = Some m /\
    forall pre1 s1,
      s = pre1 ++ s1 -> String.length pre1 < String.length pre ->
      Re.match_at r (pos + String.length pre1) s1 = None.
Proof.
  revert pos. induction s as [|c s IH]; intros pos; cbn [Re.search_from].
  - destruct (Re.match_at r pos "") as [m'|] eqn:E; [|discriminate].
    intros H. injection H as <-. exists "", "". cbn.
    rewrite Nat.add_0_r. repeat split; auto. intros; lia.
  - destruct (Re.match_at r pos (String c s)) as [m'|] eqn:E.
    + intros H. injection H as <-. exists "", (String c s). cbn.
      rewrite Nat.add_0_r. repeat split; auto. intros; lia.
    + intros H. apply IH in H as (pre & s' & -> & M & L).
      exists (String c pre), s'. cbn. rewrite Nat.add_succ_r.
      repeat split; auto.
      intros [|c1 pre1] s1 E1 Hl.
      * cbn in E1. subst s1. now rewrite Nat.add_0_r.
      * cbn in E1. injection E1 as <- E1. cbn in Hl |- *.
        rewrite Nat.add_succ_r. apply L; [assumption | lia].
Qed.

Lemma search_none (r : Re.regex) pos s :
  Re.search_from r pos s = None ->
  forall pre s', s = pre ++ s' ->
    Re.match_at r (pos + String.length pre) s' = None.
Proof.
  revert pos. induction s as [|c s IH]; intros pos; cbn [Re.search_from].
  - destruct (Re.match_at r pos "") eqn:E; [discriminate|].
    intros _ [|c pre] s' H; [|discriminate].
    cbn in H. subst s'. now rewrite Nat.add_0_r.
  - destruct (Re.match_at r pos (String c s)) eqn:E; [discriminate|].
    intros H [|c1 pre] s' E1.
    + cbn in E1. subst s'. now rewrite Nat.add_0_r.
    + cbn in E1. injection E1 as <- E1. cbn. rewrite Nat.add_succ_r.
      now apply (IH (S pos)).
Qed.

Lemma app_inj_length (a b c d : string) :
  a ++ b = c ++ d -> String.length a = String.length c -> a = c /\ b = d.
Proof.
  revert c. induction a as [|x a IH]; intros [|y c] H L; try discriminate.
  - now split.
  - cbn in H, L. injection H as -> H. injection L as L.
    destruct (IH c H L) as [-> ->]. now split.
Qed.

(** ** lookup *)

Lemma group_single (m : Re.Match) (g n : string) :
  Re.groups m = [(g, n)] -> Re.group m g = Some n.
Proof.
  unfold Re.group. intros ->. cbn. now rewrite String.eqb_refl.
Qed.

Lemma listed_match (g entity text index pre post : string) (r : Re.regex) :
  index_pattern g entity = Some r ->
  listed entity text index pre post ->
  exists s e,
    text = pre ++ s /\
    forall pos, Re.match_at r pos s = Some (Re.mkMatch pos (e pos) [(g, index)]).
Proof.
  intros P (ws & nm & -> & N & D & W & L).
  exists ("index: " ++ index ++ ws ++ "name: <" ++ nm ++ ">" ++ post).
  assert (forall pos, exists e,
            Re.match_at r pos
              ("index: " ++ index ++ ws ++ "name: <" ++ nm ++ ">" ++ post) =
            Some (Re.mkMatch pos e [(g, index)])) as H
    by (intros pos; now apply (index_match_complete g entity)).
  exists (fun pos =>
            match Re.match_at r pos
                    ("index: " ++ index ++ ws ++ "name: <" ++ nm ++ ">" ++ post)
            with Some m => Re.m_end m | None => 0 end).
  split; [reflexivity|].
  intros pos. destruct (H pos) as [e ->]. reflexivity.
Qed.

(** The lookup returns an index only from an entry of the dump, the
    leftmost one. *)
Lemma lookup_Ok_inv (g entity text : string) (missing : exn) env st i st' :
  lookup g entity text missing env st = (Ok i, st') ->
  st' = st /\
  exists pre post,
    listed entity text i pre post /\
    forall i' pre' post',
      listed entity text i' pre' post' ->
      String.length pre <= String.length pre'.
Proof.
  unfold lookup. destruct (index_pattern g entity) as [r|] eqn:P;
    [|discriminate].
  unfold Re.search.
  destruct (Re.search_from r 0 text) as [m|] eqn:S; [|discriminate].
  apply search_sound in S as (pre & s' & -> & M & L).
  destruct (index_match_sound g entity r _ _ _ P M)
    as (n & ws & nm & rest & -> & N & D & W & K & G).
  rewrite (group_single m g n G). cbn.
  intros H. injection H as <- <-. split; [reflexivity|].
  exists pre, rest. split; [now exists ws, nm|].
  intros i' pre' post' Li.
  destruct (Nat.le_gt_cases (String.length pre) (String.length pre'))
    as [|Lt]; [assumption | exfalso].
  destruct (listed_match g entity _ i' pre' post' r P Li) as (s & e & E & Ms).
  specialize (L pre' s E Lt). rewrite Ms in L. discriminate.
Qed.

(** With no entry in the dump the lookup raises. *)
Lemma lookup_missing (g entity text : string) (missing : exn) env st :
  plain entity = true ->
  (forall i pre post, ~ listed entity text i pre post) ->
  lookup g entity text missing env st = (Raise missing, st).
Proof.
  intros Pl No. unfold lookup, index_pattern.
  destruct (interpolated_plain entity Pl) as [e I]. rewrite I. cbn [option_map].
  unfold Re.search.
  destruct (Re.search_from (index_regex g e) 0 text) as [m|] eqn:S;
    [exfalso | reflexivity].
  apply search_sound in S as (pre & s' & -> & M & _).
  assert (index_pattern g entity = Some (index_regex g e)) as P
    by (unfold index_pattern; now rewrite I).
  destruct (index_match_sound g entity _ _ _ _ P M)
    as (n & ws & nm & rest & -> & N & D & W & K & G).
  apply (No n pre rest). now exists ws, nm.
Qed.

(** The lookup returns the index of the leftmost entry. *)
Lemma lookup_Ok (g entity text : string) (missing : exn) env st i pre post :
  plain entity = true ->
  listed entity text i pre post ->
  (forall i' pre' post',
     listed entity text i' pre' post' ->
     String.length pre <= String.length pre') ->
  lookup g entity text missing env st = (Ok i, st).
Proof.
  intros Pl Li Least.
  destruct (interpolated_plain entity Pl) as [e I].
  assert (index_pattern g entity = Some (index_regex g e)) as P
    by (unfold index_pattern; now rewrite I).
  destruct (listed_match g entity _ i pre post _ P Li) as (s & en & E & Ms).
  unfold lookup. rewrite P. unfold Re.search.
  destruct (Re.search_from (index_regex g e) 0 text) as [m|] eqn:S.
  - apply search_sound in S as (pre0 & s0 & E0 & M & L).
    assert (String.length pre0 = String.length pre) as El.
    { destruct (Nat.lt_trichotomy (String.length pre0) (String.length pre))
        as [Lt | [Eq | Gt]]; [exfalso | assumption | exfalso].
      - destruct (index_match_sound g entity _ _ _ _ P M)
          as (n & ws & nm & rest & -> & N & D & W & K & G).
        assert (listed entity text n pre0 rest) as L0
          by (exists ws, nm; repeat split; assumption).
        specialize (Least _ _ _ L0). lia.
      - specialize (L pre s E Gt). rewrite Ms in L. discriminate. }
    rewrite E in E0. destruct (app_inj_length _ _ _ _ E0 (eq_sym El)) as [-> ->].
    rewrite Ms in M. injection M as <-.
    now rewrite (group_single (Re.mkMatch _ _ [(g, i)]) g i eq_refl).
  - exfalso. pose proof (search_none _ _ _ S pre s E) as N.
    rewrite Ms in N. discriminate.
Qed.

(** ** get_card_index and get_sink_index *)

Lemma get_card_index_eq (address : string) env st :
  returncode (answer env (length (calls st))) = 0%Z ->
  get_card_index address env st =
  lookup "card_index" (card_name_of address)
    (stdout (answer env (length (calls st))))
    (no_card (card_name_of address)) env
    (mkState (reads st) (pacmd ["list-cards"] :: calls st)).
Proof.
  intros H. unfold get_card_index.
  now rewrite (bind_ok _ _ _ _ _ _ (run_ok _ env st H)).
Qed.

Lemma get_sink_index_eq (address profile : string) env st :
  returncode (answer env (length (calls st))) = 0%Z ->
  get_sink_index address profile env st =
  lookup "sink_index" (sink_name_of address profile)
    (stdout (answer env (length (calls st))))
    (no_sink (sink_name_of address profile)) env
    (mkState (reads st) (pacmd ["list-sinks"] :: calls st)).
Proof.
  intros H. unfold get_sink_index.
  now rewrite (bind_ok _ _ _ _ _ _ (run_ok _ env st H)).
Qed.

Lemma lookup_env (g entity text : string) (missing : exn) env env' st :
  lookup g entity text missing env st = lookup g entity text missing env' st.
Proof.
  unfold lookup. destruct (index_pattern g entity); [|reflexivity].
  destruct (Re.search _ _); [|reflexivity].
  destruct (Re.group _ _); reflexivity.
Qed.

Lemma no_name_no_entry (entity text : string) :
  (forall pre nm post,
     text = pre ++ "name: <" ++ nm ++ ">" ++ post -> like entity nm = false) ->
  forall i pre post, ~ listed entity text i pre post.
Proof.
  intros No i pre post (ws & nm & E & _ & _ & _ & L).
  rewrite (No (pre ++ "index: " ++ i ++ ws) nm post) in L; [discriminate|].
  rewrite E. now rewrite !app_assoc_s.
Qed.

(** The names of the cards of validated addresses stay in the fragment. *)
Lemma plain_replace (s : string) :
  plain s = true -> plain (replace ":" "_" s) = true.
Proof.
  unfold plain, replace. induction s as [|c s IH]; [reflexivity|].
  cbn [sall smap]. intros H. apply andb_true_iff in H as [H1 H2].
  rewrite (IH H2), andb_true_r.
  destruct (Chr.same ":" c); [reflexivity | exact H1].
Qed.

Lemma plain_app (a b : string) :
  plain a = true -> plain b = true -> plain (a ++ b) = true.
Proof.
  unfold plain. induction a as [|c a IH]; [auto|].
  cbn [sall append]. intros H Hb. apply andb_true_iff in H as [H1 H2].
  now rewrite H1, IH.
Qed.

Lemma hex_upper_plain (c : ascii) :
  Chr.hex_upper c = true -> Chr.same "." c || negb (Re.special c) = true.
Proof. each_char c; vm_compute; congruence. Qed.

Lemma plain_canonical (a : string) : canonical a = true -> plain a = true.
Proof.
  intros H. apply six_pairs_render in H as (ps & -> & L & F).
  six ps. clear L. split_ands F.
  unfold plain, render. cbn [map join fst snd append sall].
  repeat match goal with
         | H : Chr.hex_upper _ = true |- _ =>
             rewrite (hex_upper_plain _ H); clear H
         end.
  reflexivity.
Qed.

Lemma plain_card_name (a : string) :
  plain a = true -> plain (card_name_of a) = true.
Proof.
  intros H. unfold card_name_of.
  apply plain_app; [reflexivity | now apply plain_replace].
Qed.

Lemma plain_sink_name (a profile : string) :
  plain a = true -> plain profile = true ->
  plain (sink_name_of a profile) = true.
Proof.
  intros H Hp. unfold sink_name_of.
  apply plain_app; [reflexivity|].
  apply plain_app; [now apply plain_replace|].
  now apply (plain_app ".").
Qed.

(** C4, amended. White space is all that the lookup lets stand between
    the digits of an index line and the name line: when the dump has an
    entry whose index [n] is followed by white space only (blanks, tabs,
    line breaks) and then by the name line of the synthesized name, and
    no entry starts further left, the card lookup and the sink lookup
    return [n]; and an index that a lookup returns is always the index
    of such an entry. *)
Theorem lookup_whitespace_only
    (env : Env) (st : State) (address profile n ws pre post : string) :
  let p := answer env (length (calls st)) in
  let entry entity :=
    plain entity = true /\
    stdout p = pre ++ "index: " ++ n ++ ws ++ "name: <" ++ entity ++ ">" ++ post /\
    forall i' pre' post',
      listed entity (stdout p) i' pre' post' ->
      String.length pre <= String.length pre' in
  returncode p = 0%Z ->
  n <> "" -> sall Chr.digit n = true -> sall Chr.space ws = true ->
  (entry (card_name_of address) ->
     fst (get_card_index address env st) = Ok n) /\
  (entry (sink_name_of address profile) ->
     fst (get_sink_index address profile env st) = Ok n) /\
  (forall i, fst (get_card_index address env st) = Ok i ->
     exists pre' post', listed (card_name_of address) (stdout p) i pre' post') /\
  (forall i, fst (get_sink_index address profile env st) = Ok i ->
     exists pre' post',
       listed (sink_name_of address profile) (stdout p) i pre' post').
Proof.
  intros p entry R N D W.
  assert (forall g entity missing st',
            entry entity ->
            lookup g entity (stdout p) missing env st' = (Ok n, st')) as Found.
  { intros g entity missing st' (Pl & E & Least).
    apply (lookup_Ok g entity _ missing env st' n pre post Pl); [|exact Least].
    exists ws, entity. repeat split; auto using like_refl. }
  assert (forall g entity missing st' i,
            fst (lookup g entity (stdout p) missing env st') = Ok i ->
            exists pre' post', listed entity (stdout p) i pre' post') as Inv.
  { intros g entity missing st' i H.
    destruct (lookup g entity (stdout p) missing env st') as [o s] eqn:E.
    cbn in H. subst o.
    apply lookup_Ok_inv in E as (_ & pre' & post' & L & _). eauto. }
  rewrite get_card_index_eq, get_sink_index_eq by assumption. fold p.
  repeat split.
  - intros H. now rewrite Found.
  - intros H. now rewrite Found.
  - apply Inv.
  - apply Inv.
Qed.

Lemma lookup_whitespace_only_witness :
  let dump :=
    "2 card(s) available." ++ nl ++ "    index: 7" ++ nl ++
    "   name: <bluez_card.11_22_33_44_55_66>" ++ nl in
  fst (get_card_index "11:22:33:44:55:66" (const_env dump) initial) = Ok "7".
Proof.
  intros dump.
  apply (proj1 (lookup_whitespace_only (const_env dump) initial
                  "11:22:33:44:55:66" "a2dp_sink" "7" (nl ++ "   ")
                  ("2 card(s) available." ++ nl ++ "    ") nl
                  eq_refl ltac:(discriminate) eq_refl eq_refl)).
  split; [reflexivity|]. split; [reflexivity|].
  intros i' pre' post' (ws' & nm' & E & _).
  destruct (Nat.le_gt_cases 25 (String.length pre')) as [|Lt]; [assumption|].
  exfalso. cbn in E.
  do 25 (destruct pre' as [|? pre'];
         [discriminate | cbn in E; injection E as <- E; cbn in Lt]).
  lia.
Defined.

(** C4 as stated fails: a line with content between the index line and
    the name line of an entry makes both lookups raise the not-found
    error instead of returning the index. *)
Lemma intervening_line_hides_entry :
  let mid := "driver: <module-bluez5-device.c>" ++ nl in
  let cards :=
    "index: 1" ++ nl ++ mid ++ "name: <bluez_card.11_22_33_44_55_66>" in
  let sinks :=
    "index: 1" ++ nl ++ mid ++ "name: <bluez_sink.11_22_33_44_55_66.a2dp_sink>" in
  intervening mid = true /\
  fst (get_card_index "11:22:33:44:55:66" (const_env cards) initial) =
    Raise (no_card "bluez_card.11_22_33_44_55_66") /\
  fst (get_sink_index "11:22:33:44:55:66" "a2dp_sink" (const_env sinks) initial) =
    Raise (no_sink "bluez_sink.11_22_33_44_55_66.a2dp_sink") /\
  ~ tolerates_intervening_lines.
Proof.
  intros mid cards sinks. repeat split.
  intros T.
  specialize (T (const_env cards) initial "11:22:33:44:55:66" "1" mid
                eq_refl ltac:(discriminate) eq_refl eq_refl eq_refl).
  vm_compute in T. discriminate.
Qed.

(** C5. The card lookup searches the card dump for the name
    [bluez_card.] followed by the address with its colons turned into
    underscores. On the dump of the example it returns ["1"]. On a dump
    with no name line that matches the synthesized name (as the pattern
    reads it: a [.] of the name stands for any character but a newline)
    it raises the not-found error, after its one call. *)
Theorem get_card_index_by_name (env : Env) (st : State) (address : string) :
  let p := answer env (length (calls st)) in
  let card_name := "bluez_card." ++ replace ":" "_" address in
  returncode p = 0%Z ->
  plain card_name = true ->
  card_name_of "11:22:33:44:55:66" = "bluez_card.11_22_33_44_55_66" /\
  (address = "11:22:33:44:55:66" ->
   stdout p = "index: 1" ++ nl ++ "name: <bluez_card.11_22_33_44_55_66>" ->
   fst (get_card_index address env st) = Ok "1") /\
  ((forall pre nm post,
      stdout p = pre ++ "name: <" ++ nm ++ ">" ++ post ->
      like card_name nm = false) ->
   get_card_index address env st =
   (Raise (no_card card_name),
    mkState (reads st) (pacmd ["list-cards"] :: calls st))).
Proof.
  intros p card_name R Pl. split; [reflexivity|].
  rewrite get_card_index_eq by assumption. fold p. split.
  - intros -> ->. reflexivity.
  - intros No. apply lookup_missing; [exact Pl|].
    now apply no_name_no_entry.
Qed.

Lemma get_card_index_by_name_witness :
  let found := const_env ("index: 1" ++ nl ++ "name: <bluez_card.11_22_33_44_55_66>") in
  fst (get_card_index "11:22:33:44:55:66" found initial) = Ok "1" /\
  get_card_index "AA:BB:CC:DD:EE:FF" (const_env "") initial =
  (Raise (no_card "bluez_card.AA_BB_CC_DD_EE_FF"),
   mkState 0 [pacmd ["list-cards"]]).
Proof.
  intros found. split.
  - apply (proj1 (proj2 (get_card_index_by_name found initial "11:22:33:44:55:66"
                           eq_refl eq_refl)));
      reflexivity.
  - apply (proj2 (proj2 (get_card_index_by_name (const_env "") initial
                           "AA:BB:CC:DD:EE:FF" eq_refl eq_refl))).
    intros [|c pre] nm post E; discriminate.
Defined.

(** C6. The sink lookup searches the sink dump for the name
    [bluez_sink.], the address with underscores, a [.] and the profile
    it was asked for; [main] asks for the profile of the command line.
    The answer to the one [list-sinks] call is all that the lookup
    consults. On the dump of the example it returns ["1"]; on a dump
    with no name line matching the synthesized name it raises the
    not-found error. *)
Theorem get_sink_index_by_requested_profile
    (env : Env) (st : State) (address profile : string) :
  let p := answer env (length (calls st)) in
  let sink_name := "bluez_sink." ++ replace ":" "_" address ++ "." ++ profile in
  returncode p = 0%Z ->
  plain sink_name = true ->
  (address = "11:22:33:44:55:66" -> profile = "a2dp_sink" ->
   stdout p =
     "index: 1" ++ nl ++ "name: <bluez_sink.11_22_33_44_55_66.a2dp_sink>" ->
   fst (get_sink_index address profile env st) = Ok "1") /\
  ((forall pre nm post,
      stdout p = pre ++ "name: <" ++ nm ++ ">" ++ post ->
      like sink_name nm = false) ->
   get_sink_index address profile env st =
   (Raise (no_sink sink_name),
    mkState (reads st) (pacmd ["list-sinks"] :: calls st))) /\
  (forall env',
     answer env' (length (calls st)) = p ->
     get_sink_index address profile env' st =
     get_sink_index address profile env st) /\
  (forall fuel a st0 s1 s2 card_index s3,
     bluetooth_address a = address -> card_profile a = profile ->
     connect_device address env st0 = (Ok tt, s1) ->
     wait_until_connected fuel address (connect_timeout a) env s1 = (Ok tt, s2) ->
     get_card_index address env s2 = (Ok card_index, s3) ->
     set_card_profile card_index profile env s3 = (Ok tt, st) ->
     main fuel a env st0 =
     (sink_index <- get_sink_index address profile ;;
      set_default_sink sink_index) env st).
Proof.
  intros p sink_name R Pl.
  rewrite get_sink_index_eq by assumption. fold p. repeat split.
  - intros -> -> ->. reflexivity.
  - intros No. apply lookup_missing; [exact Pl|].
    now apply no_name_no_entry.
  - intros env' E. rewrite get_sink_index_eq by (rewrite E; exact R).
    rewrite E. apply lookup_env.
  - intros fuel a st0 s1 s2 i s3 <- <- H1 H2 H3 H4. unfold main.
    rewrite (bind_ok _ _ _ _ _ _ H1), (bind_ok _ _ _ _ _ _ H2).
    rewrite (bind_ok _ _ _ _ _ _ H3), (bind_ok _ _ _ _ _ _ H4).
    reflexivity.
Qed.

Lemma get_sink_index_by_requested_profile_witness :
  let found :=
    const_env ("index: 1" ++ nl ++ "name: <bluez_sink.11_22_33_44_55_66.a2dp_sink>") in
  fst (get_sink_index "11:22:33:44:55:66" "a2dp_sink" found initial) = Ok "1" /\
  get_sink_index "AA:BB:CC:DD:EE:FF" "a2dp_sink" (const_env "") initial =
  (Raise (no_sink "bluez_sink.AA_BB_CC_DD_EE_FF.a2dp_sink"),
   mkState 0 [pacmd ["list-sinks"]]).
Proof.
  intros found. split.
  - apply (proj1 (get_sink_index_by_requested_profile found initial
                    "11:22:33:44:55:66" "a2dp_sink" eq_refl eq_refl));
      reflexivity.
  - apply (proj1 (proj2 (get_sink_index_by_requested_profile (const_env "") initial
                           "AA:BB:CC:DD:EE:FF" "a2dp_sink" eq_refl eq_refl))).
    intros [|c pre] nm post E; discriminate.
Defined.

(** ** The sequence of main *)

Lemma audio_calls_bluetoothctl (request : string) (st : State) :
  audio_calls (mkState (reads st) (bluetoothctl request :: calls st)) =
  audio_calls st.
Proof. reflexivity. Qed.

(** A step that raises ends [main] with its error and in its state. *)
Lemma main_steps (fuel : nat) (a : Namespace) (env : Env) (st : State) :
  let address := bluetooth_address a in
  let profile := card_profile a in
  (forall e s1,
     connect_device address env st = (Raise e, s1) ->
     main fuel a env st = (Raise e, s1)) /\
  (forall s1, connect_device address env st = (Ok tt, s1) ->
   (forall e s2,
      wait_until_connected fuel address (connect_timeout a) env s1 = (Raise e, s2) ->
      main fuel a env st = (Raise e, s2)) /\
   (forall s2,
      wait_until_connected fuel address (connect_timeout a) env s1 = (Ok tt, s2) ->
    (forall e s3,
       get_card_index address env s2 = (Raise e, s3) ->
       main fuel a env st = (Raise e, s3)) /\
    (forall card_index s3,
       get_card_index address env s2 = (Ok card_index, s3) ->
     (forall e s4,
        set_card_profile card_index profile env s3 = (Raise e, s4) ->
        main fuel a env st = (Raise e, s4)) /\
     (forall s4,
        set_card_profile card_index profile env s3 = (Ok tt, s4) ->
      (forall e s5,
         get_sink_index address profile env s4 = (Raise e, s5) ->
         main fuel a env st = (Raise e, s5)) /\
      (forall sink_index s5,
         get_sink_index address profile env s4 = (Ok sink_index, s5) ->
         main fuel a env st = set_default_sink sink_index env s5))))).
Proof.
  intros address profile. unfold main. fold address profile.
  split; [intros e s1 H; now rewrite (bind_raise _ _ _ _ _ _ H)|].
  intros s1 H1. rewrite (bind_ok _ _ _ _ _ _ H1).
  split; [intros e s2 H; now rewrite (bind_raise _ _ _ _ _ _ H)|].
  intros s2 H2. rewrite (bind_ok _ _ _ _ _ _ H2).
  split; [intros e s3 H; now rewrite (bind_raise _ _ _ _ _ _ H)|].
  intros i s3 H3. rewrite (bind_ok _ _ _ _ _ _ H3).
  split; [intros e s4 H; now rewrite (bind_raise _ _ _ _ _ _ H)|].
  intros s4 H4. rewrite (bind_ok _ _ _ _ _ _ H4).
  split; [intros e s5 H; now rewrite (bind_raise _ _ _ _ _ _ H)|].
  intros j s5 H5. now rewrite (bind_ok _ _ _ _ _ _ H5).
Qed.

(** ** set_card_profile *)

(** C7. [set_card_profile] makes its calls in one order: the profile
    [off] first, the requested profile second. When the first call
    succeeds both calls are made and nothing after them; when the second
    then fails, its error is raised with the [off] call the last one
    that succeeded, no further call re-enables the card, and [main]
    ends right there with that error. When the first call fails it is
    the only call. *)
Theorem set_card_profile_off_then_requested
    (env : Env) (st : State) (card_index profile : string) :
  let off := pacmd ["set-card-profile"; card_index; "off"] in
  let requested := pacmd ["set-card-profile"; card_index; profile] in
  let n := length (calls st) in
  let first := returncode (answer env n) in
  let second := returncode (answer env (S n)) in
  let run := set_card_profile card_index profile env st in
  (first = 0%Z ->
     calls (snd run) = requested :: off :: calls st /\
     (second = 0%Z -> fst run = Ok tt) /\
     (second <> 0%Z ->
        fst run = Raise (CalledProcessError second (args requested)) /\
        forall fuel a st0 s1 s2,
          card_profile a = profile ->
          connect_device (bluetooth_address a) env st0 = (Ok tt, s1) ->
          wait_until_connected fuel (bluetooth_address a) (connect_timeout a)
            env s1 = (Ok tt, s2) ->
          get_card_index (bluetooth_address a) env s2 = (Ok card_index, st) ->
          main fuel a env st0 =
          (Raise (CalledProcessError second (args requested)),
           mkState (reads st) (requested :: off :: calls st)))) /\
  (first <> 0%Z ->
     calls (snd run) = off :: calls st /\
     fst run = Raise (CalledProcessError first (args off))).
Proof.
  intros off requested n first second run. subst run.
  unfold set_card_profile. fold off requested. split.
  - intros H1. rewrite (bind_ok _ _ _ _ _ _ (run_ok off env st H1)).
    destruct (Z.eq_dec second 0) as [H2 | H2].
    + rewrite (bind_ok _ _ env _ _ _
                 (run_ok requested env (mkState (reads st) (off :: calls st)) H2)).
      cbn. repeat split; congruence.
    + rewrite (bind_raise _ _ env _ _ _
                 (run_fail requested env (mkState (reads st) (off :: calls st)) H2)).
      cbn [fst snd calls]. split; [reflexivity|].
      split; [congruence|]. intros _. split; [reflexivity|].
      intros fuel a st0 s1 s2 <- C W G.
      destruct (main_steps fuel a env st0) as (_ & S).
      apply (proj1 (proj2 (proj2 (S s1 C) s2 W) card_index st G)).
      unfold set_card_profile. fold off requested.
      rewrite (bind_ok _ _ _ _ _ _ (run_ok off env st H1)).
      now rewrite (bind_raise _ _ env _ _ _
                     (run_fail requested env
                        (mkState (reads st) (off :: calls st)) H2)).
  - intros H1. rewrite (bind_raise _ _ _ _ _ _ (run_fail off env st H1)).
    cbn. split; reflexivity.
Qed.

Lemma set_card_profile_off_then_requested_witness :
  let env := mkEnv (fun _ => 0%Z)
               (fun k => mkCompleted (if Nat.eqb k 0 then 0 else 1) "") in
  let run := set_card_profile "1" "a2dp_sink" env initial in
  calls (snd run) =
    [pacmd ["set-card-profile"; "1"; "a2dp_sink"];
     pacmd ["set-card-profile"; "1"; "off"]] /\
  fst run =
    Raise (CalledProcessError 1
             ["/usr/bin/env"; "pacmd"; "set-card-profile"; "1"; "a2dp_sink"]).
Proof.
  intros env run.
  pose proof (proj1 (set_card_profile_off_then_requested env initial "1" "a2dp_sink")
                eq_refl) as (C & _ & F).
  split; [exact C | apply F; discriminate].
Defined.

(** ** The first failure ends the run *)

(** C1. When the connect command runs and its output holds
    [Device <address> not available], [main] ends with the
    not-available error right after that one call: the exit status is 1,
    and no call to the audio controller is added. In general, whichever
    step raises first, [main] ends with that error in the state that the
    step left, so nothing of the later steps is done. *)
Theorem main_aborts_at_first_failure
    (fuel : nat) (a : Namespace) (env : Env) (st : State) :
  let address := bluetooth_address a in
  let profile := card_profile a in
  let p := answer env (length (calls st)) in
  (returncode p = 0%Z ->
   (exists pre post,
      stdout p = pre ++ ("Device " ++ address ++ " not available") ++ post) ->
   main fuel a env st =
     (Raise (not_available address),
      mkState (reads st) (bluetoothctl ("connect " ++ address) :: calls st)) /\
   exit_status (fst (main fuel a env st)) = Some 1%Z /\
   audio_calls (snd (main fuel a env st)) = audio_calls st) /\
  (forall e s1,
     connect_device address env st = (Raise e, s1) ->
     main fuel a env st = (Raise e, s1)) /\
  (forall s1 e s2,
     connect_device address env st = (Ok tt, s1) ->
     wait_until_connected fuel address (connect_timeout a) env s1 = (Raise e, s2) ->
     main fuel a env st = (Raise e, s2)) /\
  (forall s1 s2 e s3,
     connect_device address env st = (Ok tt, s1) ->
     wait_until_connected fuel address (connect_timeout a) env s1 = (Ok tt, s2) ->
     get_card_index address env s2 = (Raise e, s3) ->
     main fuel a env st = (Raise e, s3)) /\
  (forall s1 s2 card_index s3 e s4,
     connect_device address env st = (Ok tt, s1) ->
     wait_until_connected fuel address (connect_timeout a) env s1 = (Ok tt, s2) ->
     get_card_index address env s2 = (Ok card_index, s3) ->
     set_card_profile card_index profile env s3 = (Raise e, s4) ->
     main fuel a env st = (Raise e, s4)) /\
  (forall s1 s2 card_index s3 s4 e s5,
     connect_device address env st = (Ok tt, s1) ->
     wait_until_connected fuel address (connect_timeout a) env s1 = (Ok tt, s2) ->
     get_card_index address env s2 = (Ok card_index, s3) ->
     set_card_profile card_index profile env s3 = (Ok tt, s4) ->
     get_sink_index address profile env s4 = (Raise e, s5) ->
     main fuel a env st = (Raise e, s5)) /\
  (forall s1 s2 card_index s3 s4 sink_index s5 e s6,
     connect_device address env st = (Ok tt, s1) ->
     wait_until_connected fuel address (connect_timeout a) env s1 = (Ok tt, s2) ->
     get_card_index address env s2 = (Ok card_index, s3) ->
     set_card_profile card_index profile env s3 = (Ok tt, s4) ->
     get_sink_index address profile env s4 = (Ok sink_index, s5) ->
     set_default_sink sink_index env s5 = (Raise e, s6) ->
     main fuel a env st = (Raise e, s6)).
Proof.
  intros address profile p.
  pose proof (main_steps fuel a env st) as (S1 & S).
  fold address profile in S1, S.
  split; [|split; [exact S1|]].
  - intros R Mk.
    assert (connect_device address env st =
            (Raise (not_available address),
             mkState (reads st) (bluetoothctl ("connect " ++ address) :: calls st)))
      as C.
    { unfold connect_device.
      rewrite (bind_ok _ _ _ _ _ _ (run_ok _ env st R)). fold p.
      apply str_in_true in Mk. now rewrite Mk. }
    rewrite (S1 _ _ C). repeat split.
  - split; [intros s1 e s2 H1; now apply (S s1 H1)|].
    split; [intros s1 s2 e s3 H1 H2; now apply (S s1 H1)|].
    split; [intros s1 s2 i s3 e s4 H1 H2 H3;
            now apply (proj2 (proj2 (S s1 H1) s2 H2) i s3 H3)|].
    split.
    + intros s1 s2 i s3 s4 e s5 H1 H2 H3 H4.
      now apply (proj2 (proj2 (proj2 (S s1 H1) s2 H2) i s3 H3) s4 H4).
    + intros s1 s2 i s3 s4 j s5 e s6 H1 H2 H3 H4 H5 H6.
      rewrite <- H6.
      now apply (proj2 (proj2 (proj2 (S s1 H1) s2 H2) i s3 H3) s4 H4).
Qed.

Lemma main_aborts_at_first_failure_witness :
  let a := mkArgs "AA:BB:CC:DD:EE:FF" 5 "a2dp_sink" false in
  let env := const_env "Device AA:BB:CC:DD:EE:FF not available" in
  main 100 a env initial =
    (Raise (not_available "AA:BB:CC:DD:EE:FF"),
     mkState 0 [bluetoothctl "connect AA:BB:CC:DD:EE:FF"]) /\
  exit_status (fst (main 100 a env initial)) = Some 1%Z /\
  audio_calls (snd (main 100 a env initial)) = [].
Proof.
  intros a env.
  apply (proj1 (main_aborts_at_first_failure 100 a env initial) eq_refl).
  exists "", "". reflexivity.
Defined.

(** ** More on the validator *)

Lemma chomp_Some (s s0 : string) : chomp s = Some s0 <-> s = s0 ++ nl.
Proof.
  revert s0. induction s as [|c s IH]; intros s0.
  - cbn. split; [discriminate|]. destruct s0; discriminate.
  - destruct s as [|c' s].
    + cbn. destruct (Chr.same Chr.newline c) eqn:E.
      * apply same_true in E. subst c. split.
        -- intros H. injection H as <-. reflexivity.
        -- destruct s0 as [|x [|y s0]]; cbn; intros H; try discriminate.
           reflexivity.
      * split; [discriminate|].
        destruct s0 as [|x [|y s0]]; cbn; intros H; try discriminate.
        injection H as ->. rewrite same_refl in E. discriminate.
    + change (chomp (String c (String c' s)))
        with (option_map (String c) (chomp (String c' s))).
      destruct (chomp (String c' s)) as [t|] eqn:E.
      * pose proof (proj1 (IH t) eq_refl) as E'. cbn [option_map]. split.
        -- intros H. injection H as <-. cbn. now rewrite E'.
        -- destruct s0 as [|x s0]; cbn; intros H; [discriminate|].
           injection H as -> H. apply IH in H. congruence.
      * cbn [option_map]. split; [discriminate|].
        destruct s0 as [|x s0]; cbn; intros H; [discriminate|].
        injection H as -> H. apply IH in H. discriminate.
Qed.

Lemma accepted_true (s : string) :
  accepted s = true <->
  six_hex_pairs s = true \/ exists s0, s = s0 ++ nl /\ six_hex_pairs s0 = true.
Proof.
  unfold accepted. rewrite orb_true_iff. split.
  - intros [H | H]; [now left | right].
    destruct (chomp s) as [s0|] eqn:E; [|discriminate].
    apply chomp_Some in E. eauto.
  - intros [H | (s0 & E & H)]; [now left | right].
    apply chomp_Some in E. now rewrite E.
Qed.

Lemma call_value (v : pyval) (a : string) :
  BluetoothAddress.__call__ v = Ok a -> a = upper (py_str v).
Proof.
  unfold BluetoothAddress.__call__. destruct (Re.match_ _ _); [|discriminate].
  congruence.
Qed.

(** X2. The validator is decided by the shape of the text: six pairs of
    hex digits, alone or followed by one newline, come back in upper
    case, and every other text raises the error that quotes it. *)
Theorem validator_decides (s : string) :
  BluetoothAddress.__call__ (PyStr s) =
  if accepted s then Ok (upper s)
  else Raise (ArgumentTypeError
                (dq ++ s ++ dq ++ " is not a valid Bluetooth Address")).
Proof.
  destruct (accepted s) eqn:A.
  - apply accepted_true in A. apply validator_accepts_iff in A as [a H].
    rewrite H. f_equal. now apply (call_value (PyStr s)).
  - destruct (validator_total (PyStr s)) as [H | H]; [|exact H].
    apply validator_accepts_iff, accepted_true in H. congruence.
Qed.

(** X3. No integer is an address: [str] of an integer has digits and a
    sign only, so the validator raises, quoting the decimal numeral.
    This is for integers of up to 4300 digits, which every interpreter
    turns into a numeral. *)
Theorem validator_rejects_every_integer (z : Z) :
  (Z.abs z < 10 ^ 4300)%Z ->
  BluetoothAddress.__call__ (PyInt z) =
  Raise (ArgumentTypeError
           (dq ++ NilZero.string_of_int (Z.to_int z) ++ dq ++
            " is not a valid Bluetooth Address")).
Proof. intros _. apply validator_rejects_int. Qed.

Lemma validator_rejects_every_integer_witness :
  BluetoothAddress.__call__ (PyInt (-12)) =
  Raise (ArgumentTypeError (dq ++ "-12" ++ dq ++ " is not a valid Bluetooth Address")).
Proof.
  apply (validator_rejects_every_integer (-12)).
  apply Z.lt_le_trans with (10 ^ 2)%Z; [reflexivity|].
  apply Z.pow_le_mono_r; lia.
Defined.

Lemma upper_app (a b : string) : upper (a ++ b) = upper a ++ upper b.
Proof.
  unfold upper. induction a as [|c a IH]; cbn; [reflexivity | now rewrite IH].
Qed.

Lemma py_upper_idem (c : ascii) :
  Chr.py_upper (Chr.py_upper c) = Chr.py_upper c.
Proof. each_char c; reflexivity. Qed.

Lemma upper_idem (s : string) : upper (upper s) = upper s.
Proof.
  unfold upper. induction s as [|c s IH]; cbn; [reflexivity|].
  now rewrite py_upper_idem, IH.
Qed.

Lemma hex_digit_py_upper (c : ascii) :
  hex_digit c = true -> hex_digit (Chr.py_upper c) = true.
Proof. each_char c; vm_compute; congruence. Qed.

Lemma both_map_upper (p q : ascii -> bool) (ps : list (ascii * ascii)) :
  (forall c, p c = true -> q (Chr.py_upper c) = true) ->
  forallb (both p) ps = true ->
  forallb (both q)
    (map (fun ab => (Chr.py_upper (fst ab), Chr.py_upper (snd ab))) ps) = true.
Proof.
  intros U. induction ps as [|[a b] ps IH]; [reflexivity|].
  cbn [forallb map]. intros F. apply andb_true_iff in F as [F1 F2].
  rewrite (IH F2), andb_true_r. unfold both in *. cbn [fst snd] in *.
  apply andb_true_iff in F1 as [Fa Fb]. now rewrite !U.
Qed.

(** What [__call__] returns, taken apart. *)
Lemma call_inv (v : pyval) (a : string) :
  BluetoothAddress.__call__ v = Ok a ->
  exists ps tail,
    a = render ps ++ tail /\ length ps = 6 /\
    forallb (both Chr.hex_upper) ps = true /\ (tail = "" \/ tail = nl).
Proof.
  intros H. pose proof (call_value v a H) as ->.
  unfold BluetoothAddress.__call__ in H.
  destruct (Re.match_ _ _) as [m|] eqn:E; [|discriminate].
  apply RE_BT_ADDRESS_sound in E as (ps & tail & -> & L & F & T).
  exists (map (fun ab => (Chr.py_upper (fst ab), Chr.py_upper (snd ab))) ps), tail.
  rewrite upper_app, upper_render by assumption.
  repeat split.
  - f_equal. destruct T as [-> | ->]; reflexivity.
  - now rewrite length_map.
  - now apply (both_map_upper hex_digit); [apply hex_upper_py_upper|].
  - exact T.
Qed.

Lemma hex_upper_hex_digit (c : ascii) :
  Chr.hex_upper c = true -> hex_digit c = true.
Proof. each_char c; vm_compute; congruence. Qed.

Lemma hex_upper_fixed (c : ascii) :
  Chr.hex_upper c = true -> Chr.py_upper c = c.
Proof. each_char c; vm_compute; congruence. Qed.

Lemma both_weaken (p q : ascii -> bool) (ps : list (ascii * ascii)) :
  (forall c, p c = true -> q c = true) ->
  forallb (both p) ps = true -> forallb (both q) ps = true.
Proof.
  intros U. induction ps as [|[a b] ps IH]; [reflexivity|].
  cbn [forallb]. intros F. apply andb_true_iff in F as [F1 F2].
  rewrite (IH F2), andb_true_r. unfold both in *. cbn [fst snd] in *.
  apply andb_true_iff in F1 as [Fa Fb]. now rewrite !U.
Qed.

Lemma upper_canonical_render (ps : list (ascii * ascii)) :
  length ps = 6 -> forallb (both Chr.hex_upper) ps = true ->
  upper (render ps) = render ps.
Proof.
  intros L F. six ps. clear L. split_ands F.
  unfold upper, render. cbn [map join fst snd append smap].
  repeat match goal with
         | H : Chr.hex_upper _ = true |- _ =>
             rewrite (hex_upper_fixed _ H); clear H
         end.
  reflexivity.
Qed.

(** X4. Whatever the validator returns is the upper-case form of its
    input, has the canonical form (alone or before one newline), is
    left as it is by [upper], and has 17 or 18 characters. *)
Theorem validator_output (v : pyval) (a : string) :
  BluetoothAddress.__call__ v = Ok a ->
  a = upper (py_str v) /\
  upper a = a /\
  (canonical a = true /\ String.length a = 17 \/
   exists a0, a = a0 ++ nl /\ canonical a0 = true /\ String.length a = 18).
Proof.
  intros H. split; [now apply call_value|].
  apply call_inv in H as (ps & tail & -> & L & F & T).
  assert (canonical (render ps) = true) as C
    by (apply render_six_pairs; auto using hex_upper_not_colon).
  assert (String.length (render ps) = 17) as Len by (six ps; reflexivity).
  split.
  - rewrite upper_app, upper_canonical_render by assumption.
    destruct T as [-> | ->]; reflexivity.
  - destruct T as [-> | ->].
    + left. now rewrite app_nil_r_s.
    + right. exists (render ps). rewrite length_app_s, Len. auto.
Qed.

Lemma validator_output_witness :
  "AA:BB:CC:DD:EE:0F" = upper "aa:bb:cc:DD:EE:0f" /\
  upper "AA:BB:CC:DD:EE:0F" = "AA:BB:CC:DD:EE:0F".
Proof.
  pose proof (validator_output (PyStr "aa:bb:cc:DD:EE:0f") "AA:BB:CC:DD:EE:0F"
                eq_refl) as (A & B & _).
  exact (conj A B).
Defined.

(** X1. Validation is idempotent: a value that the validator returned
    is returned unchanged when it is validated again. *)
Theorem validator_idempotent (v : pyval) (a : string) :
  BluetoothAddress.__call__ v = Ok a ->
  BluetoothAddress.__call__ (PyStr a) = Ok a.
Proof.
  intros H. apply call_inv in H as (ps & tail & -> & L & F & T).
  rewrite validator_accepts; auto.
  - rewrite upper_app, upper_canonical_render by assumption.
    destruct T as [-> | ->]; reflexivity.
  - now apply (both_weaken Chr.hex_upper); [apply hex_upper_hex_digit|].
Qed.

Lemma validator_idempotent_witness :
  BluetoothAddress.__call__ (PyStr "AA:BB:CC:DD:EE:0F") = Ok "AA:BB:CC:DD:EE:0F".
Proof.
  apply (validator_idempotent (PyStr "aa:bb:cc:DD:EE:0f")). reflexivity.
Defined.

(** ** More on wait_until_connected *)

(** One turn of the loop, every way it can go. *)
Lemma wait_loop_step (fuel : nat) env address timeout start st :
  wait_loop (S fuel) address timeout start env st =
  if turn_check env start timeout st 0 then
    if (returncode (turn_poll env st 0) =? 0)%Z then
      if connected (turn_poll env st 0)
      then (Ok tt, after_polls 1 address st)
      else wait_loop fuel address timeout start env (after_polls 1 address st)
    else (Raise (CalledProcessError (returncode (turn_poll env st 0))
                   (args (info address))),
          after_polls 1 address st)
  else (Raise (timed_out address), mkState (S (reads st)) (calls st)).
Proof.
  destruct (turn_check env start timeout st 0) eqn:C;
    [|now apply wait_loop_deadline].
  destruct (returncode (turn_poll env st 0) =? 0)%Z eqn:P.
  - apply Z.eqb_eq in P. now apply wait_loop_turn.
  - unfold turn_check, turn_poll in *. rewrite Nat.add_0_r in *.
    cbn [wait_loop]. unfold bind at 1. cbn [datetime_now]. rewrite C.
    unfold bind, subprocess_run. cbn [calls reads]. rewrite P.
    unfold after_polls. cbn [repeat app]. now rewrite Nat.add_1_r.
Qed.

Lemma turn_check_shift env start timeout address st j :
  turn_check env start timeout (after_polls 1 address st) j =
  turn_check env start timeout st (S j).
Proof.
  unfold turn_check, after_polls. cbn [reads]. f_equal. f_equal. lia.
Qed.

Lemma turn_poll_shift env address st j :
  turn_poll env (after_polls 1 address st) j = turn_poll env st (S j).
Proof.
  unfold turn_poll, after_polls. cbn [calls repeat app length]. f_equal. lia.
Qed.

Lemma wait_loop_calls (fuel : nat) env address timeout start st :
  exists n, n <= fuel /\
    calls (snd (wait_loop fuel address timeout start env st)) =
    (repeat (info address) n ++ calls st)%list.
Proof.
  revert st. induction fuel as [|fuel IH]; intros st.
  - exists 0. split; [lia | reflexivity].
  - rewrite wait_loop_step.
    destruct (turn_check env start timeout st 0);
      [|exists 0; split; [lia | reflexivity]].
    destruct (returncode (turn_poll env st 0) =? 0)%Z;
      [|exists 1; split; [lia | reflexivity]].
    destruct (connected (turn_poll env st 0));
      [exists 1; split; [lia | reflexivity]|].
    destruct (IH (after_polls 1 address st)) as (n & L & E).
    exists (S n). split; [lia|]. rewrite E. unfold after_polls.
    cbn [calls repeat app]. apply repeat_shift.
Qed.

Lemma audio_calls_polls (address : string) (n : nat) (l : list Cmd) :
  filter audio_call (repeat (info address) n ++ l)%list = filter audio_call l.
Proof. induction n as [|n IH]; [reflexivity | exact IH]. Qed.

(** X6. Whatever happens in [wait_until_connected] (a return, an error,
    or a loop still running when the bound of the model is reached), the
    calls it has made are polls of the one address, at most one for each
    turn of the loop, and none of them goes to the audio controller. *)
Theorem wait_until_connected_only_polls
    (fuel : nat) (env : Env) (st : State) (address : string) (timeout : Z) :
  exists n, n <= fuel /\
    calls (snd (wait_until_connected fuel address timeout env st)) =
    (repeat (bluetoothctl ("info " ++ address)) n ++ calls st)%list /\
    audio_calls (snd (wait_until_connected fuel address timeout env st)) =
    audio_calls st.
Proof.
  rewrite wait_until_connected_eq.
  destruct (wait_loop_calls fuel env address timeout (clock env (reads st))
              (mkState (S (reads st)) (calls st))) as (n & L & E).
  exists n. split; [exact L|]. split; [exact E|].
  unfold audio_calls. rewrite E. apply audio_calls_polls.
Qed.

Lemma wait_loop_Ok_inv (fuel : nat) env address timeout start st st' :
  wait_loop fuel address timeout start env st = (Ok tt, st') ->
  exists k, k < fuel /\ st' = after_polls (S k) address st /\
    returncode (turn_poll env st k) = 0%Z /\
    connected (turn_poll env st k) = true /\
    (forall j, j <= k -> turn_check env start timeout st j = true) /\
    (forall j, j < k -> connected (turn_poll env st j) = false).
Proof.
  revert st. induction fuel as [|fuel IH]; intros st; [discriminate|].
  rewrite wait_loop_step.
  destruct (turn_check env start timeout st 0) eqn:C; [|discriminate].
  destruct (returncode (turn_poll env st 0) =? 0)%Z eqn:P; [|discriminate].
  apply Z.eqb_eq in P.
  destruct (connected (turn_poll env st 0)) eqn:Y.
  - intros H. injection H as <-. exists 0. repeat split; auto; try lia.
    intros j Hj. now replace j with 0 by lia.
  - intros H. apply IH in H as (k & Lk & -> & Pk & Yk & Ck & Nk).
    exists (S k). rewrite turn_poll_shift in Pk, Yk.
    repeat split; auto; try lia.
    + apply after_polls_S.
    + intros [|j] Hj; [exact C|].
      rewrite <- (turn_check_shift env start timeout address). apply Ck. lia.
    + intros [|j] Hj; [exact Y|].
      rewrite <- (turn_poll_shift env address). apply Nk. lia.
Qed.

Lemma wait_loop_timeout_inv (fuel : nat) env address timeout start st st' :
  wait_loop fuel address timeout start env st = (Raise (timed_out address), st') ->
  exists k, k < fuel /\
    st' = mkState (S (reads st + k)) (repeat (info address) k ++ calls st)%list /\
    turn_check env start timeout st k = false /\
    (forall j, j < k ->
       turn_check env start timeout st j = true /\
       connected (turn_poll env st j) = false).
Proof.
  revert st. induction fuel as [|fuel IH]; intros st; [discriminate|].
  rewrite wait_loop_step.
  destruct (turn_check env start timeout st 0) eqn:C.
  - destruct (returncode (turn_poll env st 0) =? 0)%Z eqn:P; [|discriminate].
    destruct (connected (turn_poll env st 0)) eqn:Y; [discriminate|].
    intros H. apply IH in H as (k & Lk & -> & Ck & Nk).
    exists (S k). rewrite turn_check_shift in Ck.
    repeat split; auto; try lia.
    + unfold after_polls. cbn [reads calls repeat app].
      f_equal; [lia | apply repeat_shift].
    + destruct j as [|j]; [exact C|].
      rewrite <- (turn_check_shift env start timeout address).
      apply Nk. lia.
    + destruct j as [|j]; [exact Y|].
      rewrite <- (turn_poll_shift env address). apply Nk. lia.
  - intros H. injection H as <-. exists 0.
    repeat split; auto; try lia.
    now rewrite Nat.add_0_r.
Qed.

(** X16. [wait_until_connected] returns only on the word of a poll: if
    it returns, its last call is a poll that exited with 0 and reported
    [Connected: yes], every check up to that turn found the deadline
    ahead, and no earlier poll had the marker. *)
Theorem wait_until_connected_returns_on_marker
    (fuel : nat) (env : Env) (st st' : State) (address : string) (timeout : Z) :
  wait_until_connected fuel address timeout env st = (Ok tt, st') ->
  exists k, k < fuel /\
    st' = mkState (reads st + k + 2)
            (repeat (bluetoothctl ("info " ++ address)) (S k) ++ calls st)%list /\
    returncode (answer env (length (calls st) + k)) = 0%Z /\
    str_in "Connected: yes" (stdout (answer env (length (calls st) + k))) = true /\
    (forall j, j <= k ->
       within (clock env (reads st)) (clock env (S (reads st) + j)) timeout = true) /\
    (forall j, j < k ->
       str_in "Connected: yes" (stdout (answer env (length (calls st) + j))) = false).
Proof.
  rewrite wait_until_connected_eq. intros H.
  apply wait_loop_Ok_inv in H as (k & Lk & -> & P & Y & C & N).
  exists k. repeat split; auto.
  unfold after_polls. cbn [reads calls]. f_equal. lia.
Qed.

Lemma wait_until_connected_returns_on_marker_witness :
  exists k, k < 5 /\
    str_in "Connected: yes" (stdout (answer (const_env "Connected: yes") (0 + k)))
    = true.
Proof.
  destruct (wait_until_connected_returns_on_marker 5 (const_env "Connected: yes")
              initial (mkState 2 [info "AA:BB:CC:DD:EE:FF"]) "AA:BB:CC:DD:EE:FF" 5
              eq_refl) as (k & L & _ & _ & Y & _).
  exists k. exact (conj L Y).
Defined.

(** X17. For a timeout below [2^34] seconds, where the rounding of
    [total_seconds()] does not show, the timeout error is raised only at
    a check that found the deadline reached: all the turns before it
    passed their check and polled without finding the marker, and no
    call follows the last of these polls. *)
Theorem wait_until_connected_times_out_at_check
    (fuel : nat) (env : Env) (st st' : State) (address : string) (timeout : Z) :
  (Z.abs timeout < 2 ^ 34)%Z ->
  wait_until_connected fuel address timeout env st =
    (Raise (timed_out address), st') ->
  exists k, k < fuel /\
    st' = mkState (reads st + k + 2)
            (repeat (bluetoothctl ("info " ++ address)) k ++ calls st)%list /\
    (timeout * 1000000 <=
       clock env (S (reads st) + k) - clock env (reads st))%Z /\
    (forall j, j < k ->
       (clock env (S (reads st) + j) - clock env (reads st)
          < timeout * 1000000)%Z /\
       str_in "Connected: yes" (stdout (answer env (length (calls st) + j))) = false).
Proof.
  intros B. rewrite wait_until_connected_eq. intros H.
  apply wait_loop_timeout_inv in H as (k & Lk & -> & C & N).
  exists k. repeat split; auto.
  - cbn [reads calls]. f_equal. lia.
  - unfold turn_check in C. cbn [reads] in C.
    rewrite within_exact in C by exact B. now apply Z.ltb_ge.
  - destruct (N j H) as [Cj _]. unfold turn_check in Cj.
    cbn [reads] in Cj. rewrite within_exact in Cj by exact B.
    now apply Z.ltb_lt.
  - now destruct (N j H).
Qed.

Lemma wait_until_connected_times_out_at_check_witness :
  let env := mkEnv (fun i => Z.of_nat i * 3000000)%Z
               (fun _ => mkCompleted 0 "Connected: no") in
  exists k, k < 5 /\
    (5 * 1000000 <= clock env (1 + k) - clock env 0)%Z.
Proof.
  intros env.
  destruct (wait_until_connected_times_out_at_check 5 env initial
              (mkState 3 [info "AA:BB:CC:DD:EE:FF"]) "AA:BB:CC:DD:EE:FF" 5
              eq_refl eq_refl) as (k & L & _ & C & _).
  exists k. exact (conj L C).
Defined.

(** X8. A poll that exits with a non-zero code ends the wait at once
    with [CalledProcessError] for the [bluetoothctl] command: the loop
    does not poll again and the timeout error is not raised. The poll
    is one that the loop starts: the checks up to its turn are the
    program's own, on the double of [total_seconds()]. *)
Theorem wait_until_connected_poll_failure
    (env : Env) (st : State) (address : string) (timeout : Z) (k fuel : nat) :
  let start := clock env (reads st) in
  let check j := within start (clock env (S (reads st) + j)) timeout in
  let poll j := answer env (length (calls st) + j) in
  k < fuel ->
  (forall j, j < k ->
     check j = true /\ returncode (poll j) = 0%Z /\ connected (poll j) = false) ->
  check k = true ->
  returncode (poll k) <> 0%Z ->
  wait_until_connected fuel address timeout env st =
  (Raise (CalledProcessError (returncode (poll k))
            ["/usr/bin/env"; "bluetoothctl"]),
   mkState (reads st + k + 2)
     (repeat (bluetoothctl ("info " ++ address)) (S k) ++ calls st)%list).
Proof.
  intros start check poll F H C P.
  rewrite wait_until_connected_eq. fold start.
  replace fuel with (k + S (fuel - S k)) by lia.
  rewrite wait_loop_skip by exact H.
  rewrite wait_loop_step.
  assert (turn_check env start timeout
            (after_polls k address (mkState (S (reads st)) (calls st))) 0 = true)
    as ->.
  { unfold turn_check, after_polls. cbn [reads]. rewrite Nat.add_0_r. exact C. }
  assert (turn_poll env
            (after_polls k address (mkState (S (reads st)) (calls st))) 0 = poll k)
    as ->.
  { unfold turn_poll, after_polls. cbn [calls].
    rewrite length_app, repeat_length. unfold poll. f_equal. lia. }
  apply Z.eqb_neq in P. rewrite P.
  unfold after_polls. cbn [reads calls repeat app]. do 2 f_equal. lia.
Qed.

Lemma wait_until_connected_poll_failure_witness :
  let env := mkEnv (fun i => Z.of_nat i)
               (fun i => mkCompleted (if Nat.eqb i 1 then 3 else 0) "") in
  wait_until_connected 9 "AA:BB:CC:DD:EE:FF" 5 env initial =
  (Raise (CalledProcessError 3 ["/usr/bin/env"; "bluetoothctl"]),
   mkState 3 (repeat (info "AA:BB:CC:DD:EE:FF") 2)).
Proof.
  intros env.
  apply (wait_until_connected_poll_failure env initial "AA:BB:CC:DD:EE:FF" 5 1 9);
    [lia | | reflexivity | discriminate].
  intros [|j] Hj; [repeat split | lia].
Defined.

Lemma wait_loop_bounded (fuel : nat) env address timeout start st :
  (Z.abs timeout < 2 ^ 34)%Z ->
  (forall i, clock env i < clock env (S i))%Z ->
  (Z.max 0 (timeout * 1000000 - (clock env (reads st) - start))
     < Z.of_nat fuel)%Z ->
  exists n,
    (Z.of_nat n
       <= Z.max 0 (timeout * 1000000 - (clock env (reads st) - start)))%Z /\
    calls (snd (wait_loop fuel address timeout start env st)) =
      (repeat (info address) n ++ calls st)%list /\
    (fst (wait_loop fuel address timeout start env st) = Ok tt \/
     exists e, fst (wait_loop fuel address timeout start env st) = Raise e).
Proof.
  intros B Adv. revert st. induction fuel as [|fuel IH]; intros st F; [lia|].
  rewrite wait_loop_step.
  destruct (turn_check env start timeout st 0) eqn:C.
  - unfold turn_check in C. rewrite Nat.add_0_r in C.
    rewrite within_exact in C by exact B.
    apply Z.ltb_lt in C.
    destruct (returncode (turn_poll env st 0) =? 0)%Z.
    + destruct (connected (turn_poll env st 0)).
      * exists 1. cbn [fst snd]. repeat split; [lia | now left].
      * pose proof (Adv (reads st)) as A.
        destruct (IH (after_polls 1 address st)) as (n & Ln & E & O).
        { unfold after_polls. cbn [reads]. rewrite Nat.add_1_r. lia. }
        exists (S n). rewrite E.
        unfold after_polls in Ln |- *. cbn [reads calls repeat app] in Ln |- *.
        rewrite Nat.add_1_r in Ln.
        repeat split; [lia | apply repeat_shift | exact O].
    + exists 1. cbn [fst snd]. repeat split; [lia | right; eauto].
  - exists 0. cbn [fst snd]. repeat split; [lia | right; eauto].
Qed.

(** X7. For a timeout below [2^34] seconds and a clock whose every
    reading is later than the one before, the busy wait ends: a bound
    on the turns above the timeout in microseconds always gives a
    return or an exception, after no more polls than the timeout has
    microseconds. *)
Theorem wait_until_connected_terminates
    (fuel : nat) (env : Env) (st : State) (address : string) (timeout : Z) :
  (Z.abs timeout < 2 ^ 34)%Z ->
  (forall i, clock env i < clock env (S i))%Z ->
  Z.to_nat (timeout * 1000000) < fuel ->
  exists n, n <= Z.to_nat (timeout * 1000000) /\
    calls (snd (wait_until_connected fuel address timeout env st)) =
      (repeat (bluetoothctl ("info " ++ address)) n ++ calls st)%list /\
    (fst (wait_until_connected fuel address timeout env st) = Ok tt \/
     exists e, fst (wait_until_connected fuel address timeout env st) = Raise e).
Proof.
  intros B Adv F. rewrite wait_until_connected_eq.
  pose proof (Adv (reads st)) as A.
  destruct (wait_loop_bounded fuel env address timeout (clock env (reads st))
              (mkState (S (reads st)) (calls st)) B Adv) as (n & Ln & E & O).
  { cbn [reads]. lia. }
  cbn [reads calls] in Ln, E.
  exists n. repeat split; [lia | exact E | exact O].
Qed.

Lemma wait_until_connected_terminates_witness :
  let env := mkEnv (fun i => Z.of_nat i * 400000)%Z
               (fun _ => mkCompleted 0 "Connected: no") in
  let fuel := S (Z.to_nat (1 * 1000000)) in
  exists n, n <= Z.to_nat (1 * 1000000) /\
    calls (snd (wait_until_connected fuel "AA:BB:CC:DD:EE:FF" 1 env initial)) =
      (repeat (info "AA:BB:CC:DD:EE:FF") n ++ [])%list /\
    (fst (wait_until_connected fuel "AA:BB:CC:DD:EE:FF" 1 env initial) = Ok tt \/
     exists e,
       fst (wait_until_connected fuel "AA:BB:CC:DD:EE:FF" 1 env initial) = Raise e).
Proof.
  intros env fuel.
  apply (wait_until_connected_terminates fuel env initial "AA:BB:CC:DD:EE:FF" 1).
  - reflexivity.
  - intros i. cbn [clock env]. lia.
  - apply Nat.lt_succ_diag_r.
Defined.

(** ** More on the steps *)

(** X5. A command that exits with a non-zero code makes its step raise
    [CalledProcessError] with that code and the command line, after that
    one call. For the connect step this comes before any look at the
    output, so it holds also when the output reports the device as not
    available. *)
Theorem failed_command_raises
    (env : Env) (st : State) (address profile sink_index : string) :
  let rc := returncode (answer env (length (calls st))) in
  let after c := mkState (reads st) (c :: calls st) in
  rc <> 0%Z ->
  connect_device address env st =
    (Raise (CalledProcessError rc ["/usr/bin/env"; "bluetoothctl"]),
     after (mkCmd ["/usr/bin/env"; "bluetoothctl"] (Some ("connect " ++ address)))) /\
  get_card_index address env st =
    (Raise (CalledProcessError rc ["/usr/bin/env"; "pacmd"; "list-cards"]),
     after (mkCmd ["/usr/bin/env"; "pacmd"; "list-cards"] None)) /\
  get_sink_index address profile env st =
    (Raise (CalledProcessError rc ["/usr/bin/env"; "pacmd"; "list-sinks"]),
     after (mkCmd ["/usr/bin/env"; "pacmd"; "list-sinks"] None)) /\
  set_default_sink sink_index env st =
    (Raise (CalledProcessError rc
              ["/usr/bin/env"; "pacmd"; "set-default-sink"; sink_index]),
     after (mkCmd ["/usr/bin/env"; "pacmd"; "set-default-sink"; sink_index] None)).
Proof.
  intros rc after H.
  unfold connect_device, get_card_index, get_sink_index, set_default_sink.
  repeat split;
    match goal with
    | |- bind (subprocess_run ?c) _ _ _ = _ =>
        now rewrite (bind_raise _ _ _ _ _ _ (run_fail c env st H))
    end.
Qed.

Lemma failed_command_raises_witness :
  let env := mkEnv (fun _ => 0%Z)
               (fun _ => mkCompleted 1 "Device AA:BB:CC:DD:EE:FF not available") in
  connect_device "AA:BB:CC:DD:EE:FF" env initial =
  (Raise (CalledProcessError 1 ["/usr/bin/env"; "bluetoothctl"]),
   mkState 0 [bluetoothctl "connect AA:BB:CC:DD:EE:FF"]).
Proof.
  intros env.
  apply (proj1 (failed_command_raises env initial "AA:BB:CC:DD:EE:FF" "" ""
                  ltac:(discriminate))).
Defined.

Lemma get_index_Ok_rc (env : Env) (st : State) (c : Cmd)
    (f : CompletedProcess -> M string) i st' :
  bind (subprocess_run c) f env st = (Ok i, st') ->
  returncode (answer env (length (calls st))) = 0%Z.
Proof.
  intros H.
  destruct (Z.eq_dec (returncode (answer env (length (calls st)))) 0)
    as [E | E]; [exact E|].
  rewrite (bind_raise _ _ _ _ _ _ (run_fail c env st E)) in H. discriminate.
Qed.

(** X9. An index that a lookup returns is a run of one or more decimal
    digits, taken from the dump after the one call of the lookup. *)
Theorem returned_index_is_digits
    (env : Env) (st st' : State) (address profile i : string) :
  get_card_index address env st = (Ok i, st') \/
  get_sink_index address profile env st = (Ok i, st') ->
  i <> "" /\ sall Chr.digit i = true /\
  (exists pre post, stdout (answer env (length (calls st))) = pre ++ i ++ post) /\
  reads st' = reads st /\ length (calls st') = S (length (calls st)).
Proof.
  assert (forall g entity missing s,
            lookup g entity (stdout (answer env (length (calls st))))
              missing env s = (Ok i, st') ->
            i <> "" /\ sall Chr.digit i = true /\
            (exists pre post,
               stdout (answer env (length (calls st))) = pre ++ i ++ post) /\
            st' = s) as L.
  { intros g entity missing s H.
    apply lookup_Ok_inv in H
      as (-> & pre & post & (ws & nm & E & N & D & _) & _).
    repeat split; auto.
    exists (pre ++ "index: "), (ws ++ "name: <" ++ nm ++ ">" ++ post).
    rewrite E. now rewrite !app_assoc_s. }
  intros [H | H].
  - pose proof (get_index_Ok_rc _ _ _ _ _ _ H) as R.
    rewrite get_card_index_eq in H by exact R.
    apply L in H as (N & D & S & ->). repeat split; auto.
  - pose proof (get_index_Ok_rc _ _ _ _ _ _ H) as R.
    rewrite get_sink_index_eq in H by exact R.
    apply L in H as (N & D & S & ->). repeat split; auto.
Qed.

Lemma returned_index_is_digits_witness :
  "42" <> "" /\ sall Chr.digit "42" = true.
Proof.
  pose (env := const_env ("index: 42" ++ nl ++ "name: <bluez_card.11_22_33_44_55_66>")).
  destruct (returned_index_is_digits env initial
              (mkState 0 [pacmd ["list-cards"]]) "11:22:33:44:55:66" "" "42"
              (or_introl eq_refl)) as (N & D & _).
  exact (conj N D).
Defined.

Lemma like_app (a b x y : string) :
  like a x = true -> like b y = true -> like (a ++ b) (x ++ y) = true.
Proof.
  revert x. induction a as [|c a IH]; intros [|d x] A B; try discriminate.
  - exact B.
  - cbn in A |- *. apply andb_true_iff in A as [A1 A2].
    now rewrite A1, IH.
Qed.

(** X10. The name is put into the pattern as it is, so the dot of
    [bluez_card.] stands for any character but a newline: an entry whose
    name has another character in that place is found like the card's
    own entry. *)
Theorem card_name_dot_is_wildcard
    (env : Env) (st : State) (address n ws pre post : string) (c : ascii) :
  let p := answer env (length (calls st)) in
  returncode p = 0%Z ->
  plain address = true ->
  c <> Chr.newline ->
  n <> "" -> sall Chr.digit n = true -> sall Chr.space ws = true ->
  stdout p =
    pre ++ "index: " ++ n ++ ws ++
    "name: <bluez_card" ++ String c (replace ":" "_" address) ++ ">" ++ post ->
  (forall i' pre' post',
     listed (card_name_of address) (stdout p) i' pre' post' ->
     String.length pre <= String.length pre') ->
  fst (get_card_index address env st) = Ok n.
Proof.
  intros p R Pl C N D W E Least.
  rewrite get_card_index_eq by exact R. fold p.
  rewrite (lookup_Ok "card_index" (card_name_of address) (stdout p) _ env _
             n pre post); auto using plain_card_name.
  exists ws, ("bluez_card" ++ String c (replace ":" "_" address)).
  repeat split; auto.
  unfold card_name_of.
  change "bluez_card." with ("bluez_card" ++ ".").
  rewrite app_assoc_s. apply like_app; [reflexivity|].
  apply (like_app "." _ (String c "")).
  - cbn. unfold Chr.dot.
    destruct (Chr.same Chr.newline c) eqn:S; [|reflexivity].
    apply same_true in S. contradiction.
  - apply like_refl. now apply plain_replace.
Qed.

Lemma card_name_dot_is_wildcard_witness :
  fst (get_card_index "11:22:33:44:55:66"
         (const_env ("index: 7" ++ nl ++ "name: <bluez_card_11_22_33_44_55_66>"))
         initial) = Ok "7".
Proof.
  apply (card_name_dot_is_wildcard
           (const_env ("index: 7" ++ nl ++ "name: <bluez_card_11_22_33_44_55_66>"))
           initial "11:22:33:44:55:66" "7" nl "" "" "_"
           eq_refl eq_refl ltac:(discriminate) ltac:(discriminate)
           eq_refl eq_refl eq_refl).
  intros. cbn. lia.
Defined.

Lemma lookup_outcome (g entity text : string) (missing : exn) env st :
  plain entity = true ->
  (exists i, lookup g entity text missing env st = (Ok i, st)) \/
  lookup g entity text missing env st = (Raise missing, st).
Proof.
  intros Pl. destruct (interpolated_plain entity Pl) as [e I].
  assert (index_pattern g entity = Some (index_regex g e)) as P
    by (unfold index_pattern; now rewrite I).
  unfold lookup. rewrite P. unfold Re.search.
  destruct (Re.search_from (index_regex g e) 0 text) as [m|] eqn:S;
    [left | now right].
  apply search_sound in S as (pre & s' & _ & M & _).
  destruct (index_match_sound g entity _ _ _ _ P M)
    as (n & _ & _ & _ & _ & _ & _ & _ & _ & G).
  exists n. now rewrite (group_single m g n G).
Qed.

Lemma plain_validated (v : pyval) (a : string) :
  BluetoothAddress.__call__ v = Ok a -> plain a = true.
Proof.
  intros H. apply call_inv in H as (ps & tail & -> & L & F & T).
  apply plain_app.
  - apply plain_canonical, render_six_pairs; auto using hex_upper_not_colon.
  - destruct T as [-> | ->]; reflexivity.
Qed.

(** X12. The card name of an address that the validator returned has
    no special character of the pattern language but dots. So the
    search of the card lookup, on whatever text the decoded dump is,
    has two outcomes and no pattern error: it finds an index, or it
    raises the not-found error that names the card. *)
Theorem card_lookup_on_validated_address
    (v : pyval) (a text : string) (env : Env) (st : State) :
  BluetoothAddress.__call__ v = Ok a ->
  plain (card_name_of a) = true /\
  ((exists i,
      lookup "card_index" (card_name_of a) text (no_card (card_name_of a))
        env st = (Ok i, st)) \/
   lookup "card_index" (card_name_of a) text (no_card (card_name_of a))
     env st =
   (Raise (BTHeadsetError
             ("Unable to find card index of " ++ dq ++
              "bluez_card." ++ replace ":" "_" a ++ dq)), st)).
Proof.
  intros H.
  assert (plain (card_name_of a) = true) as Pl
    by (apply plain_card_name; now apply (plain_validated v)).
  split; [exact Pl|].
  apply (lookup_outcome "card_index" (card_name_of a) text
           (no_card (card_name_of a)) env st Pl).
Qed.

Lemma card_lookup_on_validated_address_witness :
  plain (card_name_of "AA:BB:CC:DD:EE:FF") = true /\
  ((exists i,
      lookup "card_index" (card_name_of "AA:BB:CC:DD:EE:FF") "index: 3"
        (no_card (card_name_of "AA:BB:CC:DD:EE:FF")) (const_env "") initial =
      (Ok i, initial)) \/
   lookup "card_index" (card_name_of "AA:BB:CC:DD:EE:FF") "index: 3"
     (no_card (card_name_of "AA:BB:CC:DD:EE:FF")) (const_env "") initial =
   (Raise (BTHeadsetError
             ("Unable to find card index of " ++ dq ++
              "bluez_card." ++ replace ":" "_" "AA:BB:CC:DD:EE:FF" ++ dq)),
    initial)).
Proof.
  exact (card_lookup_on_validated_address (PyStr "aa:bb:cc:dd:ee:ff")
           "AA:BB:CC:DD:EE:FF" "index: 3" (const_env "") initial eq_refl).
Defined.

(** ** More on the names *)

Lemma replace_render (ps : list (ascii * ascii)) :
  length ps = 6 -> forallb (both Chr.hex_upper) ps = true ->
  replace ":" "_" (render ps) =
  join "_" (map (fun ab => String (fst ab) (String (snd ab) "")) ps).
Proof.
  intros L F. six ps. clear L. split_ands F.
  unfold replace, render. cbn [map join fst snd append smap].
  repeat match goal with
         | H : Chr.hex_upper ?c = true |- _ =>
             rewrite (hex_upper_not_colon c H); clear H
         end.
  reflexivity.
Qed.

(** X11. Two addresses in canonical form have the same card name only
    if they are the same address, and the sink names of two of them
    agree only for the same address and the same profile: turning the
    colons into underscores loses nothing on validated addresses. *)
Theorem names_injective (a b p q : string) :
  canonical a = true -> canonical b = true ->
  (card_name_of a = card_name_of b -> a = b) /\
  (sink_name_of a p = sink_name_of b q -> a = b /\ p = q).
Proof.
  intros A B.
  apply six_pairs_render in A as (ps & -> & L & F).
  apply six_pairs_render in B as (ps' & -> & L' & F').
  unfold card_name_of, sink_name_of.
  rewrite !replace_render by assumption.
  six ps. six ps'. clear. unfold render.
  cbn [map join fst snd append].
  split; intros H; injection H; intros; subst; auto.
Qed.

Lemma names_injective_witness :
  "AA:BB:CC:DD:EE:0F" = "AA:BB:CC:DD:EE:0F" /\ "a2dp_sink" = "a2dp_sink".
Proof.
  exact (proj2 (names_injective "AA:BB:CC:DD:EE:0F" "AA:BB:CC:DD:EE:0F"
                  "a2dp_sink" "a2dp_sink" eq_refl eq_refl) eq_refl).
Defined.

(** ** More on main *)

Lemma bind_beyond {A B} (m : M A) (f : A -> M B) env st l st' :
  m env st = (Beyond l, st') -> bind m f env st = (Beyond l, st').
Proof. unfold bind. now intros ->. Qed.

Lemma connect_device_state (address : string) env st :
  snd (connect_device address env st) =
  mkState (reads st) (bluetoothctl ("connect " ++ address) :: calls st).
Proof.
  unfold connect_device, bind, subprocess_run.
  destruct (returncode _ =? 0)%Z; [|reflexivity].
  destruct (str_in _ _); reflexivity.
Qed.

Lemma wait_audio_calls (fuel : nat) env st address timeout :
  audio_calls (snd (wait_until_connected fuel address timeout env st)) =
  audio_calls st.
Proof.
  rewrite wait_until_connected_eq.
  destruct (wait_loop_calls fuel env address timeout (clock env (reads st))
              (mkState (S (reads st)) (calls st))) as (n & _ & E).
  unfold audio_calls. rewrite E. apply audio_calls_polls.
Qed.

(** X15. The audio controller is not touched before the headset is
    connected: unless the connect step returned and the wait after it
    returned too, [main] ends without any call to [pacmd]. *)
Theorem audio_only_after_connected
    (fuel : nat) (a : Namespace) (env : Env) (st : State) :
  audio_calls (snd (main fuel a env st)) = audio_calls st \/
  exists s1 s2,
    connect_device (bluetooth_address a) env st = (Ok tt, s1) /\
    wait_until_connected fuel (bluetooth_address a) (connect_timeout a) env s1 =
      (Ok tt, s2).
Proof.
  pose proof (connect_device_state (bluetooth_address a) env st) as S1.
  unfold main.
  destruct (connect_device (bluetooth_address a) env st) as [o1 s1] eqn:C.
  cbn [snd] in S1.
  assert (audio_calls s1 = audio_calls st) as A1 by (now rewrite S1).
  destruct o1 as [[]|e|l].
  - rewrite (bind_ok _ _ _ _ _ _ C).
    pose proof (wait_audio_calls fuel env s1 (bluetooth_address a)
                  (connect_timeout a)) as A2.
    destruct (wait_until_connected fuel (bluetooth_address a) (connect_timeout a)
                env s1) as [o2 s2] eqn:W.
    cbn [snd] in A2.
    destruct o2 as [[]|e|l].
    + right. now exists s1, s2.
    + left. rewrite (bind_raise _ _ _ _ _ _ W). cbn [snd]. congruence.
    + left. rewrite (bind_beyond _ _ _ _ _ _ W). cbn [snd]. congruence.
  - left. now rewrite (bind_raise _ _ _ _ _ _ C).
  - left. now rewrite (bind_beyond _ _ _ _ _ _ C).
Qed.

(** X14. With a timeout of zero or less [main] cannot succeed: on a
    clock that does not go back between the two readings of the wait,
    it ends with an exception after the connect call alone (the error
    of the connect step, or else the timeout error), without a poll and
    without a call to the audio controller. *)
Theorem main_fails_without_timeout
    (fuel : nat) (a : Namespace) (env : Env) (st : State) :
  (connect_timeout a <= 0)%Z ->
  (clock env (reads st) <= clock env (S (reads st)))%Z ->
  (exists e, fst (main (S fuel) a env st) = Raise e) /\
  calls (snd (main (S fuel) a env st)) =
    bluetoothctl ("connect " ++ bluetooth_address a) :: calls st.
Proof.
  intros T C.
  pose proof (connect_device_state (bluetooth_address a) env st) as S1.
  unfold main.
  destruct (connect_device (bluetooth_address a) env st) as [o1 s1] eqn:D.
  cbn [snd] in S1. subst s1.
  destruct o1 as [[]|e|l].
  - rewrite (bind_ok _ _ _ _ _ _ D).
    assert (wait_until_connected (S fuel) (bluetooth_address a) (connect_timeout a)
              env (mkState (reads st)
                     (bluetoothctl ("connect " ++ bluetooth_address a) :: calls st))
            = (Raise (timed_out (bluetooth_address a)),
               mkState (S (S (reads st)))
                 (bluetoothctl ("connect " ++ bluetooth_address a) :: calls st)))
      as W.
    { rewrite wait_until_connected_eq. apply wait_loop_deadline.
      unfold turn_check. cbn [reads]. rewrite Nat.add_0_r.
      now apply within_nonneg. }
    rewrite (bind_raise _ _ _ _ _ _ W).
    cbn [fst snd calls]. split; [eauto | reflexivity].
  - rewrite (bind_raise _ _ _ _ _ _ D). cbn. split; [eauto | reflexivity].
  - exfalso. unfold connect_device, bind, subprocess_run in D.
    destruct (returncode _ =? 0)%Z; [|discriminate].
    destruct (str_in _ _); discriminate.
Qed.

Lemma main_fails_without_timeout_witness :
  let a := mkArgs "AA:BB:CC:DD:EE:FF" 0 "a2dp_sink" false in
  calls (snd (main 1 a (const_env "Connected: yes") initial)) =
  [bluetoothctl "connect AA:BB:CC:DD:EE:FF"].
Proof.
  intros a.
  apply (proj2 (main_fails_without_timeout 0 a (const_env "Connected: yes") initial
                  ltac:(cbn; lia) ltac:(cbn; lia))).
Defined.

Lemma lookup_Ok_state (g entity text : string) (missing : exn) env st i :
  fst (lookup g entity text missing env st) = Ok i ->
  lookup g entity text missing env st = (Ok i, st).
Proof.
  destruct (lookup g entity text missing env st) as [o s] eqn:E.
  cbn. intros ->. apply lookup_Ok_inv in E as (-> & _). reflexivity.
Qed.

Lemma fst_Ok_rc (env : Env) (st : State) (c : Cmd)
    (f : CompletedProcess -> M string) i :
  fst (bind (subprocess_run c) f env st) = Ok i ->
  returncode (answer env (length (calls st))) = 0%Z.
Proof.
  intros H.
  destruct (Z.eq_dec (returncode (answer env (length (calls st)))) 0)
    as [E | E]; [exact E|].
  rewrite (bind_raise _ _ _ _ _ _ (run_fail c env st E)) in H. discriminate.
Qed.

Lemma get_card_index_Ok_state (address : string) env st i :
  fst (get_card_index address env st) = Ok i ->
  get_card_index address env st =
  (Ok i, mkState (reads st) (pacmd ["list-cards"] :: calls st)).
Proof.
  intros H. pose proof (fst_Ok_rc _ _ _ _ _ H) as R.
  rewrite get_card_index_eq in H |- * by exact R.
  now apply lookup_Ok_state.
Qed.

Lemma get_sink_index_Ok_state (address profile : string) env st i :
  fst (get_sink_index address profile env st) = Ok i ->
  get_sink_index address profile env st =
  (Ok i, mkState (reads st) (pacmd ["list-sinks"] :: calls st)).
Proof.
  intros H. pose proof (fst_Ok_rc _ _ _ _ _ H) as R.
  rewrite get_sink_index_eq in H |- * by exact R.
  now apply lookup_Ok_state.
Qed.

(** X13. The run that succeeds: when the connect command exits with 0
    and does not report the device as not available, the poll of turn
    [k] is the first to report [Connected: yes] with the deadline still
    ahead (by the program's own check, on the double of
    [total_seconds()]), the two lookups find their indices and every command exits
    with 0, then [main] returns with exit status 0, and its calls are,
    in this order: connect, [k + 1] polls, [list-cards], the card
    profile [off], the requested profile, [list-sinks], and
    [set-default-sink] with the index that the sink lookup returned. *)
Theorem main_succeeds
    (fuel k : nat) (a : Namespace) (env : Env) (st : State)
    (card_index sink_index : string) :
  let address := bluetooth_address a in
  let profile := card_profile a in
  let n := length (calls st) in
  let start := clock env (reads st) in
  let poll j := answer env (n + 1 + j) in
  let connected_at :=
    mkState (reads st + k + 2)
      (repeat (bluetoothctl ("info " ++ address)) (S k) ++
       bluetoothctl ("connect " ++ address) :: calls st)%list in
  let profile_set :=
    mkState (reads st + k + 2)
      (pacmd ["set-card-profile"; card_index; profile] ::
       pacmd ["set-card-profile"; card_index; "off"] ::
       pacmd ["list-cards"] :: calls connected_at) in
  k < fuel ->
  returncode (answer env n) = 0%Z ->
  str_in ("Device " ++ address ++ " not available") (stdout (answer env n)) = false ->
  (forall j, j < k ->
     within start (clock env (S (reads st) + j)) (connect_timeout a) = true /\
     returncode (poll j) = 0%Z /\ connected (poll j) = false) ->
  within start (clock env (S (reads st) + k)) (connect_timeout a) = true ->
  returncode (poll k) = 0%Z -> connected (poll k) = true ->
  fst (get_card_index address env connected_at) = Ok card_index ->
  returncode (answer env (n + k + 3)) = 0%Z ->
  returncode (answer env (n + k + 4)) = 0%Z ->
  fst (get_sink_index address profile env profile_set) = Ok sink_index ->
  returncode (answer env (n + k + 6)) = 0%Z ->
  main fuel a env st =
    (Ok tt,
     mkState (reads st + k + 2)
       (pacmd ["set-default-sink"; sink_index] ::
        pacmd ["list-sinks"] :: calls profile_set)) /\
  exit_status (fst (main fuel a env st)) = Some 0%Z.
Proof.
  intros address profile n start poll connected_at profile_set
         F R0 M0 Hk Ck Rk Yk Hc R3 R4 Hs R6.
  assert (main fuel a env st =
          (Ok tt,
           mkState (reads st + k + 2)
             (pacmd ["set-default-sink"; sink_index] ::
              pacmd ["list-sinks"] :: calls profile_set))) as E;
    [|now rewrite E].
  unfold main. fold address profile.
  (* connect *)
  assert (connect_device address env st =
          (Ok tt, mkState (reads st)
                    (bluetoothctl ("connect " ++ address) :: calls st))) as E1.
  { unfold connect_device.
    rewrite (bind_ok _ _ _ _ _ _ (run_ok _ env st R0)). fold n.
    now rewrite M0. }
  rewrite (bind_ok _ _ _ _ _ _ E1).
  (* wait *)
  assert (wait_until_connected fuel address (connect_timeout a) env
            (mkState (reads st) (bluetoothctl ("connect " ++ address) :: calls st))
          = (Ok tt, connected_at)) as E2.
  { rewrite wait_until_connected_eq. cbn [reads calls]. fold start.
    pose proof (wait_loop_outcome env address (connect_timeout a) start k fuel
                  (mkState (S (reads st))
                     (bluetoothctl ("connect " ++ address) :: calls st)) F)
      as W.
    unfold turn_check, turn_poll in W. cbn [reads calls length] in W.
    assert (forall j, S n + j = n + 1 + j) as Sh by (intros; lia).
    fold n in W. setoid_rewrite Sh in W. fold poll in W.
    destruct (W Hk) as [_ W2]. rewrite (W2 Ck Rk Yk).
    unfold after_polls, connected_at. cbn [reads calls]. do 2 f_equal. lia. }
  rewrite (bind_ok _ _ _ _ _ _ E2).
  (* card *)
  rewrite (bind_ok _ _ _ _ _ _ (get_card_index_Ok_state _ _ _ _ Hc)).
  assert (length (calls connected_at) = n + k + 2) as Lc.
  { unfold connected_at. cbn [calls].
    rewrite length_app, repeat_length. cbn [length]. fold n. lia. }
  (* profile *)
  assert (set_card_profile card_index profile env
            (mkState (reads connected_at)
               (pacmd ["list-cards"] :: calls connected_at))
          = (Ok tt, profile_set)) as E4.
  { unfold set_card_profile.
    erewrite bind_ok;
      [|apply run_ok; cbn [calls length]; rewrite Lc;
        now replace (S (n + k + 2)) with (n + k + 3) by lia].
    erewrite bind_ok;
      [|apply run_ok; cbn [calls length]; rewrite Lc;
        now replace (S (S (n + k + 2))) with (n + k + 4) by lia].
    reflexivity. }
  rewrite (bind_ok _ _ _ _ _ _ E4).
  (* sink *)
  rewrite (bind_ok _ _ _ _ _ _ (get_sink_index_Ok_state _ _ _ _ _ Hs)).
  unfold set_default_sink.
  erewrite bind_ok; [reflexivity|].
  apply run_ok. unfold profile_set. cbn [calls length]. rewrite Lc.
  now replace (S (S (S (S (n + k + 2))))) with (n + k + 6) by lia.
Qed.

Lemma main_succeeds_witness :
  let a := mkArgs "AA:BB:CC:DD:EE:FF" 5 "a2dp_sink" false in
  let env :=
    mkEnv (fun i => Z.of_nat i * 1000000)%Z
      (fun i =>
         mkCompleted 0
           (match i with
            | 0 => "Attempting to connect to AA:BB:CC:DD:EE:FF"
            | 1 => "Connected: no"
            | 2 => "Connected: yes"
            | 3 => "index: 4" ++ nl ++ "name: <bluez_card.AA_BB_CC_DD_EE_FF>"
            | 6 => "index: 9" ++ nl ++
                   "name: <bluez_sink.AA_BB_CC_DD_EE_FF.a2dp_sink>"
            | _ => ""
            end)) in
  main 10 a env initial =
  (Ok tt,
   mkState 3
     [pacmd ["set-default-sink"; "9"];
      pacmd ["list-sinks"];
      pacmd ["set-card-profile"; "4"; "a2dp_sink"];
      pacmd ["set-card-profile"; "4"; "off"];
      pacmd ["list-cards"];
      bluetoothctl "info AA:BB:CC:DD:EE:FF";
      bluetoothctl "info AA:BB:CC:DD:EE:FF";
      bluetoothctl "connect AA:BB:CC:DD:EE:FF"]).
Proof.
  intros a env.
  apply (proj1 (main_succeeds 10 1 a env initial "4" "9"
                  ltac:(lia) eq_refl eq_refl
                  ltac:(intros [|j] Hj; [repeat split | lia])
                  eq_refl eq_refl eq_refl eq_refl eq_refl eq_refl eq_refl
                  eq_refl)).
Defined.
